(** * gtsfm: two-view verification utilities and the MVS view-selection score

    A shallow embedding of

    - [src/gtsfm/utils/verification.py]  (module [verification]),
    - [src/utils/verification.py]        (module [utils_verification]),
    - [src/gtsfm/densify/mvs_math.py]    (module [mvs_math]),
    - [src/tests/retriever/test_rig_retriever.py]
                                         (module [test_rig_retriever]),

    together with the properties of these functions that the specification
    states.

    Numbers.  NumPy arrays hold IEEE binary64 values.  Finite values are
    modelled by the real numbers with exact arithmetic (no rounding, no
    overflow); an operation that leaves the finite range in exact arithmetic
    -- a division by zero, the square root of a negative number -- produces
    the IEEE special value it produces in NumPy, see [float64].  Three
    places where the doubles differ from the reals in kind, not in the last
    digit, are modelled as they are: [math.exp] returns [0.0] below the
    smallest double and raises above the largest, an integer of more than
    53 bits is rounded when it is put into an array of doubles, and the
    cast of a double to a 64-bit integer wraps.  Theorems whose statement
    would otherwise depend on squares or quotients that leave the range of
    the doubles bound the parameters.  Python exceptions are the [Raise]
    results of the [result] monad. *)

From Stdlib Require Import String Reals Lra List Bool PeanoNat.
From Stdlib Require Import Lia.
Import ListNotations.
Open Scope R_scope.

(** ** Python results: a value or a raised exception *)

Inductive exception : Set :=
| AttributeError         (* attribute lookup on an object that lacks it *)
| NameError              (* a name bound in no enclosing scope *)
| ValueError             (* NumPy: operands could not be broadcast together *)
| LinAlgError            (* numpy.linalg: "Singular matrix" *)
| DegenerateVectorError  (* the angle between vectors, one of them zero *)
| ZeroDivisionError      (* a Python float divided by zero *)
| OverflowError          (* math: "math range error" *)
| ExternalError (msg : string). (* raised by an external collaborator *)

Inductive result (A : Type) : Type :=
| Ok (a : A)
| Raise (e : exception).
Arguments Ok {A} a.
Arguments Raise {A} e.

Definition bind {A B : Type} (r : result A) (k : A -> result B) : result B :=
  match r with
  | Ok a => k a
  | Raise e => Raise e
  end.

Notation "x <- e ;; k" := (bind e (fun x => k))
  (at level 61, e at next level, right associativity).
Notation "' p <- e ;; k" := (bind e (fun x => let p := x in k))
  (at level 61, p pattern, e at next level, right associativity).

(** ** IEEE values: the finite reals and the three special values *)

Inductive float64 : Type :=
| Finite (x : R)
| PosInf
| NegInf
| NaN.

Definition isfinite (v : float64) : bool :=
  match v with
  | Finite _ => true
  | _ => false
  end.

(** [a + b]: opposite infinities cancel to NaN. *)
Definition f64_add (a b : float64) : float64 :=
  match a, b with
  | NaN, _ | _, NaN => NaN
  | Finite x, Finite y => Finite (x + y)
  | PosInf, NegInf | NegInf, PosInf => NaN
  | PosInf, _ | _, PosInf => PosInf
  | NegInf, _ | _, NegInf => NegInf
  end.

(** The infinity whose sign is the sign of [x] times the sign of [inf];
    [0 * inf] is NaN. *)
Definition scale_inf (x : R) (positive : bool) : float64 :=
  if Req_dec_T x 0 then NaN
  else if Rlt_dec 0 x then (if positive then PosInf else NegInf)
       else (if positive then NegInf else PosInf).

Definition f64_mul (a b : float64) : float64 :=
  match a, b with
  | NaN, _ | _, NaN => NaN
  | Finite x, Finite y => Finite (x * y)
  | Finite x, PosInf | PosInf, Finite x => scale_inf x true
  | Finite x, NegInf | NegInf, Finite x => scale_inf x false
  | PosInf, PosInf | NegInf, NegInf => PosInf
  | PosInf, NegInf | NegInf, PosInf => NegInf
  end.

(** NumPy's true division: [x / 0] is an infinity of the sign of [x], and
    [0 / 0] is NaN (a warning, never an exception).  A zero divisor stands
    for [+0.0], which is what a sum of squares, a square root or a square
    evaluates to. *)
Definition f64_div (a b : float64) : float64 :=
  match a, b with
  | NaN, _ | _, NaN => NaN
  | Finite x, Finite y =>
      if Req_dec_T y 0 then scale_inf x true else Finite (x / y)
  | Finite _, PosInf | Finite _, NegInf => Finite 0
  | PosInf, Finite y => if Rlt_dec y 0 then NegInf else PosInf
  | NegInf, Finite y => if Rlt_dec y 0 then PosInf else NegInf
  | PosInf, PosInf | PosInf, NegInf | NegInf, PosInf | NegInf, NegInf => NaN
  end.

(** [np.sqrt]: NaN below zero. *)
Definition f64_sqrt (a : float64) : float64 :=
  match a with
  | Finite x => if Rlt_dec x 0 then NaN else Finite (sqrt x)
  | PosInf => PosInf
  | NegInf => NaN
  | NaN => NaN
  end.

(** The binary64 value of [exp x] where it is too small to be a positive
    double: up to half of the smallest subnormal, [2^-1074], it is [0.0]. *)
Definition exp_rounded (x : R) : R :=
  if Rle_dec (exp x) (/ 2 ^ 1075) then 0 else exp x.

(** [math.exp]: a result beyond the doubles is an [OverflowError], a result
    below them is [0.0] without any error. *)
Definition math_exp (a : float64) : result float64 :=
  match a with
  | Finite x =>
      if Rle_dec (2 ^ 1024) (exp x) then Raise OverflowError
      else Ok (Finite (exp_rounded x))
  | PosInf => Ok PosInf
  | NegInf => Ok (Finite 0)
  | NaN => Ok NaN
  end.

(** The two kinds of number a helper can hand over.  They differ in what
    [/] does with a zero divisor: a Python float raises
    [ZeroDivisionError], a NumPy scalar follows IEEE. *)
Inductive scalar_kind : Set :=
| PythonFloat
| NumPyScalar.

(** [a / b] where [a] is of the given kind. *)
Definition true_divide (kind : scalar_kind) (a b : float64)
  : result float64 :=
  match kind, b with
  | PythonFloat, Finite y =>
      if Req_dec_T y 0 then Raise ZeroDivisionError else Ok (f64_div a b)
  | _, _ => Ok (f64_div a b)
  end.

(** ** Fixed-shape arrays: 3-vectors, 3x3 matrices, N x 2 and N x 3 arrays *)

Definition vec3 : Type := R * R * R.
Definition mat33 : Type := vec3 * vec3 * vec3.   (* the three rows *)
Definition coords : Type := list (R * R).        (* shape (N, 2) *)
Definition lines : Type := list vec3.             (* shape (N, 3) *)

Definition dot (u v : vec3) : R :=
  let '(u0, u1, u2) := u in
  let '(v0, v1, v2) := v in
  u0 * v0 + u1 * v1 + u2 * v2.

(** [np.linalg.norm] of a vector. *)
Definition norm (v : vec3) : R := sqrt (dot v v).

(** [M.T] *)
Definition transpose (m : mat33) : mat33 :=
  let '((a, b, c), (d, e, f), (g, h, i)) := m in
  ((a, d, g), (b, e, h), (c, f, i)).

(** [M @ v] for a column vector [v]. *)
Definition mat_vec (m : mat33) (v : vec3) : vec3 :=
  let '(r0, r1, r2) := m in (dot r0 v, dot r1 v, dot r2 v).

(** [A @ B] *)
Definition matmul (a b : mat33) : mat33 :=
  let '(r0, r1, r2) := a in
  let '(c0, c1, c2) := transpose b in
  ((dot r0 c0, dot r0 c1, dot r0 c2),
   (dot r1 c0, dot r1 c1, dot r1 c2),
   (dot r2 c0, dot r2 c1, dot r2 c2)).

Definition identity : mat33 := ((1, 0, 0), (0, 1, 0), (0, 0, 1)).

Definition det (m : mat33) : R :=
  let '((a, b, c), (d, e, f), (g, h, i)) := m in
  a * (e * i - f * h) - b * (d * i - f * g) + c * (d * h - e * g).

Definition adjugate (m : mat33) : mat33 :=
  let '((a, b, c), (d, e, f), (g, h, i)) := m in
  ((e * i - f * h, c * h - b * i, b * f - c * e),
   (f * g - d * i, a * i - c * g, c * d - a * f),
   (d * h - e * g, b * g - a * h, a * e - b * d)).

Definition scale (k : R) (m : mat33) : mat33 :=
  let '((a, b, c), (d, e, f), (g, h, i)) := m in
  ((k * a, k * b, k * c), (k * d, k * e, k * f), (k * g, k * h, k * i)).

(** [np.linalg.inv]: the inverse, or [LinAlgError] ("Singular matrix") when
    there is none. *)
Definition np_linalg_inv (m : mat33) : result mat33 :=
  if Req_dec_T (det m) 0 then Raise LinAlgError
  else Ok (scale (/ det m) (adjugate m)).

(** Row-wise combination of two arrays. *)
Fixpoint map2 {A B C : Type} (f : A -> B -> C) (xs : list A) (ys : list B)
  : list C :=
  match xs, ys with
  | x :: xs', y :: ys' => f x y :: map2 f xs' ys'
  | _, _ => []
  end.

(** NumPy broadcasting of a binary operation along the first axis: equal
    lengths combine row by row, a single row is repeated, anything else is
    a [ValueError]. *)
Definition broadcast {A B C : Type} (f : A -> B -> C)
    (xs : list A) (ys : list B) : result (list C) :=
  if (length xs =? length ys)%nat then Ok (map2 f xs ys)
  else match xs, ys with
       | [x], _ => Ok (map (f x) ys)
       | _, [y] => Ok (map (fun x => f x y) xs)
       | _, _ => Raise ValueError
       end.

(** [a.size] of an array of shape (N, 2). *)
Definition size (a : coords) : nat := (length a * 2)%nat.

(** ** gtsam objects, through the accessors this code calls *)

(** Camera intrinsics expose their calibration matrix, [K()]. *)
Class Intrinsics (C : Type) : Type := { K : C -> mat33 }.

(** An essential-matrix object exposes its 3x3 array, [matrix()]. *)
Class HasMatrix (E : Type) : Type := { matrix : E -> mat33 }.

(** What a caller can pass where an essential matrix is expected: a plain
    NumPy array, or an object with a [matrix()] method. *)
Inductive pyobject (E : Type) : Type :=
| Ndarray (a : mat33)
| Object (e : E).
Arguments Ndarray {E} a.
Arguments Object {E} e.

(** [o.matrix()]: a NumPy array has no such attribute. *)
Definition call_matrix {E : Type} `{HasMatrix E} (o : pyobject E)
  : result mat33 :=
  match o with
  | Ndarray _ => Raise AttributeError
  | Object e => Ok (matrix e)
  end.

(** gtsam's [Cal3Bundler]: one focal length, two radial distortion
    coefficients and the principal point; [K()] ignores the distortion. *)
Record Cal3Bundler : Type := mkCal3Bundler {
  cal_f : R; cal_k1 : R; cal_k2 : R; cal_u0 : R; cal_v0 : R
}.

#[export] Instance Cal3Bundler_Intrinsics : Intrinsics Cal3Bundler := {
  K c := ((cal_f c, 0, cal_u0 c), (0, cal_f c, cal_v0 c), (0, 0, 1))
}.

Definition skew (t : vec3) : mat33 :=
  let '(t0, t1, t2) := t in
  ((0, - t2, t1), (t2, 0, - t0), (- t1, t0, 0)).

(** gtsam's [EssentialMatrix]: a rotation and a translation direction;
    [matrix()] is [skew(t) @ R]. *)
Record EssentialMatrix : Type := mkEssentialMatrix {
  ess_rotation : mat33; ess_direction : vec3
}.

#[export] Instance EssentialMatrix_HasMatrix : HasMatrix EssentialMatrix := {
  matrix e := matmul (skew (ess_direction e)) (ess_rotation e)
}.

(** ** Python sequences *)

(** A list comprehension whose element expression may raise: the elements
    are evaluated in order and the first exception ends the evaluation. *)
Fixpoint comprehension {A B : Type} (f : A -> result B) (xs : list A)
  : result (list B) :=
  match xs with
  | [] => Ok []
  | x :: xs' => y <- f x ;; ys <- comprehension f xs' ;; Ok (y :: ys)
  end.

(** [np.vstack] of a sequence of rows: "need at least one array to
    concatenate" is a [ValueError]. *)
Definition np_vstack {A : Type} (rows : list A) : result (list A) :=
  match rows with
  | [] => Raise ValueError
  | _ :: _ => Ok rows
  end.

(** ** Concrete inputs used in the examples *)

(** The identity calibration: unit focal length, principal point at the
    origin. *)
Definition unit_camera : Cal3Bundler := mkCal3Bundler 1 0 0 0 0.

(** A camera of focal length zero. *)
Definition zero_focal_camera : Cal3Bundler := mkCal3Bundler 0 0 0 320 240.

(** A sideways translation without rotation. *)
Definition sideways : EssentialMatrix :=
  mkEssentialMatrix identity (1, 0, 0).

(** The fundamental matrix of scenario B of the specification; it sends
    the pixel (0, 0) to the line (0, 0, 1), whose xy-part is zero. *)
Definition exchange_F : mat33 := ((0, 1, 0), (1, 0, 0), (0, 0, 1)).

(** ** Helpers of the repository that the sources import *)

(** Modelled from the spec: [gtsfm/utils/features.py] is not among the
    sources.  Section 4.2: "map a 2D point p to homogeneous form
    (px, py, 1)". *)
Definition convert_to_homogenous_coordinates (p : R * R) : vec3 :=
  let '(px, py) := p in (px, py, 1).

(** Modelled from the spec: [gtsfm/utils/features.py] is not among the
    sources.  Section 4.2: "apply a 3x3 matrix to obtain a line l = M.p",
    for every row of the array. *)
Definition convert_to_epipolar_lines (coordinates : coords) (M : mat33)
  : lines :=
  map (fun p => mat_vec M (convert_to_homogenous_coordinates p)) coordinates.

(** Modelled from the spec: [gtsfm/utils/features.py] is not among the
    sources.  Section 4.2: "compute the unnormalized point-line incidence
    dot(p_h, l)", row by row over two arrays that NumPy broadcasts. *)
Definition point_line_dotproduct (points : coords) (ls : lines)
  : result (list R) :=
  broadcast (fun p l => dot (convert_to_homogenous_coordinates p) l)
            points ls.

(** [np.rad2deg] *)
Definition rad2deg (x : R) : R := x * 180 / PI.

(** Modelled from the spec: [gtsfm/utils/geometry_comparisons.py] is not
    among the sources.  Section 4.4, step 2: the angle "in degrees via the
    normalized-dot-product / arccosine formula", for two nonzero vectors. *)
Definition angle_deg (v1 v2 : vec3) : R :=
  rad2deg (acos (dot v1 v2 / (norm v1 * norm v2))).

(** Modelled from the spec: [gtsfm/utils/geometry_comparisons.py] is not
    among the sources.  Section 4.4, step 2: the angle "in degrees via the
    normalized-dot-product / arccosine formula.  Fails with a
    DegenerateVectorError if either ray has zero magnitude". *)
Definition angle_between_vectors (v1 v2 : vec3) : result R :=
  if Req_dec_T (norm v1) 0 then Raise DegenerateVectorError
  else if Req_dec_T (norm v2) 0 then Raise DegenerateVectorError
  else Ok (angle_deg v1 v2).

(** [line[:, :2]] squared and summed along axis 1, for one row. *)
Definition sq_norm_xy (l : vec3) : R :=
  let '(a, b, _) := l in a * a + b * b.

(** ** [src/gtsfm/utils/verification.py] *)

Module verification.

(** constant used to prevent division by zero error. *)
Definition EPS : R := 1 / 10 ^ 8.

Section PoseRecovery.
(** The collaborators of pose recovery: [feature_utils.normalize_coordinates],
    OpenCV's [cv.recoverPose] (return value, rotation, translation, mask)
    and gtsam's [Rot3] and [Unit3] constructors.  Each call may raise. *)
Context {C : Type} `{Intrinsics C}.
Variables Rot3 Unit3 : Type.
Variable normalize_coordinates : coords -> C -> result coords.
Variable cv_recoverPose :
  mat33 -> coords -> coords -> result (nat * mat33 * vec3 * list bool).
Variable Rot3_new : mat33 -> result Rot3.
Variable Unit3_new : vec3 -> result Unit3.

Definition recover_relative_pose_from_essential_matrix
    (i2Ei1 : option mat33)
    (verified_coordinates_i1 verified_coordinates_i2 : coords)
    (camera_intrinsics_i1 camera_intrinsics_i2 : C)
  : result (option Rot3 * option Unit3) :=
  match i2Ei1 with
  | None => Ok (None, None)
  | Some E =>
      normalized_coordinates_i1 <-
        normalize_coordinates verified_coordinates_i1 camera_intrinsics_i1 ;;
      normalized_coordinates_i2 <-
        normalize_coordinates verified_coordinates_i2 camera_intrinsics_i2 ;;
      '(_, i2Ri1, i2ti1, _) <-
        cv_recoverPose E normalized_coordinates_i1 normalized_coordinates_i2 ;;
      r <- Rot3_new i2Ri1 ;;
      u <- Unit3_new i2ti1 ;;
      Ok (Some r, Some u)
  end.
End PoseRecovery.

Definition fundamental_to_essential_matrix {C : Type} `{Intrinsics C}
    (i2Fi1 : mat33) (camera_intrinsics_i1 camera_intrinsics_i2 : C)
  : mat33 :=
  matmul (matmul (transpose (K camera_intrinsics_i2)) i2Fi1)
         (K camera_intrinsics_i1).

(** The operands of [inv(K2.T) @ E.matrix() @ inv(K1)] are evaluated from
    left to right. *)
Definition essential_to_fundamental_matrix
    {E C : Type} `{HasMatrix E} `{Intrinsics C}
    (i2Ei1 : pyobject E) (camera_intrinsics_i1 camera_intrinsics_i2 : C)
  : result mat33 :=
  inv_K2t <- np_linalg_inv (transpose (K camera_intrinsics_i2)) ;;
  e <- call_matrix i2Ei1 ;;
  inv_K1 <- np_linalg_inv (K camera_intrinsics_i1) ;;
  Ok (matmul (matmul inv_K2t e) inv_K1).

Definition compute_epipolar_distances_sed
    (coordinates_i1 coordinates_i2 : option coords) (i2Fi1 : mat33)
  : result (option (list float64)) :=
  match coordinates_i1, coordinates_i2 with
  | Some c1, Some c2 =>
      if (size c1 =? 0)%nat || (size c2 =? 0)%nat then Ok None
      else
        let epipolar_lines_i2 := convert_to_epipolar_lines c1 i2Fi1 in
        let epipolar_lines_i1 :=
          convert_to_epipolar_lines c2 (transpose i2Fi1) in
        numerator <- point_line_dotproduct c1 epipolar_lines_i1 ;;
        let line_sq_norms_i1 := map sq_norm_xy epipolar_lines_i1 in
        let line_sq_norms_i2 := map sq_norm_xy epipolar_lines_i2 in
        let inv1 := map (fun n => f64_div (Finite 1) (Finite n))
                        line_sq_norms_i1 in
        let inv2 := map (fun n => f64_div (Finite 1) (Finite n))
                        line_sq_norms_i2 in
        s <- broadcast f64_add inv1 inv2 ;;
        d <- broadcast f64_mul (map Finite numerator) (map f64_sqrt s) ;;
        Ok (Some d)
  | _, _ => Ok None   (* [is None] on either side *)
  end.

Definition compute_epipolar_distances_sampson
    (coordinates_i1 coordinates_i2 : option coords) (i2Fi1 : mat33)
  : result (option (list float64)) :=
  match coordinates_i1, coordinates_i2 with
  | Some c1, Some c2 =>
      if (size c1 =? 0)%nat || (size c2 =? 0)%nat then Ok None
      else
        let epipolar_lines_i2 := convert_to_epipolar_lines c1 i2Fi1 in
        let epipolar_lines_i1 :=
          convert_to_epipolar_lines c2 (transpose i2Fi1) in
        let line_sq_norms_i1 := map sq_norm_xy epipolar_lines_i1 in
        let line_sq_norms_i2 := map sq_norm_xy epipolar_lines_i2 in
        numerator <- point_line_dotproduct c1 epipolar_lines_i1 ;;
        s <- broadcast Rplus line_sq_norms_i1 line_sq_norms_i2 ;;
        let denominator := map (fun x => f64_sqrt (Finite x)) s in
        d <- broadcast f64_div (map Finite numerator) denominator ;;
        Ok (Some d)
  | _, _ => Ok None
  end.

End verification.

(** ** [src/utils/verification.py] *)

Module utils_verification.

(** Reading a name inside the function body.  The body assigns [fx], [px],
    [py], [K2] and [K1]; the module binds [cv], [np], the gtsam classes and
    its own three functions; none of the builtins is a calibration
    parameter.  A name found in no scope is a [NameError]. *)
Definition load_name (locals : list (string * R)) (name : string)
  : result R :=
  match find (fun b => String.eqb (fst b) name) locals with
  | Some (_, v) => Ok v
  | None => Raise NameError
  end.

Definition fundamental_to_essential_matrix {C : Type} `{Intrinsics C}
    (i2Fi1 : mat33) (camera_intrinsics_i1 camera_intrinsics_i2 : C)
  : result mat33 :=
  let locals :=
    [("fx"%string, 1392.1069298937407);  (* also fy *)
     ("px"%string, 980.1759848618066);
     ("py"%string, 604.3534182680304)] in
  (* K2 = np.array([[fx, 0, px],[0, fy, py], [0,0,1]]) *)
  fx <- load_name locals "fx" ;;
  px <- load_name locals "px" ;;
  fy <- load_name locals "fy" ;;
  py <- load_name locals "py" ;;
  let K2 : mat33 := ((fx, 0, px), (0, fy, py), (0, 0, 1)) in
  (* K1 = np.array([[fx, 0, px],[0, fy, py], [0,0,1]]) *)
  fx <- load_name locals "fx" ;;
  px <- load_name locals "px" ;;
  fy <- load_name locals "fy" ;;
  py <- load_name locals "py" ;;
  let K1 : mat33 := ((fx, 0, px), (0, fy, py), (0, 0, 1)) in
  Ok (matmul (matmul (transpose K2) i2Fi1) K1).

Section PoseRecovery.
(** The collaborators: gtsam's [calibrate] of the intrinsics (it may fail
    to converge), the rounding of [astype(np.float32)], OpenCV's
    [cv.recoverPose] and the [Rot3] and [Unit3] constructors. *)
Context {C : Type}.
Variables Rot3 Unit3 : Type.
Variable calibrate : C -> R * R -> result (R * R).
Variable astype_float32 : R -> R.
Variable cv_recoverPose :
  mat33 -> coords -> coords -> result (nat * mat33 * vec3 * list bool).
Variable Rot3_new : mat33 -> result Rot3.
Variable Unit3_new : vec3 -> result Unit3.

(** [np.vstack([intrinsics.calibrate(x[:2]...) for x in verified])
       .astype(np.float32)] *)
Definition normalized_coordinates (camera_intrinsics : C)
    (verified_coordinates : coords) : result coords :=
  rows <- comprehension (calibrate camera_intrinsics) verified_coordinates ;;
  stacked <- np_vstack rows ;;
  Ok (map (fun p => (astype_float32 (fst p), astype_float32 (snd p)))
          stacked).

Definition recover_relative_pose_from_essential_matrix
    (i2Ei1 : mat33)
    (verified_coordinates_i1 verified_coordinates_i2 : coords)
    (camera_intrinsics_i1 camera_intrinsics_i2 : C)
  : result (Rot3 * Unit3) :=
  normalized_coordinates_i1 <-
    normalized_coordinates camera_intrinsics_i1 verified_coordinates_i1 ;;
  normalized_coordinates_i2 <-
    normalized_coordinates camera_intrinsics_i2 verified_coordinates_i2 ;;
  '(_, R, t, _) <-
    cv_recoverPose i2Ei1 normalized_coordinates_i1 normalized_coordinates_i2 ;;
  r <- Rot3_new R ;;
  u <- Unit3_new t ;;
  Ok (r, u).
End PoseRecovery.

End utils_verification.

(** ** [src/gtsfm/densify/mvs_math.py] *)

Module mvs_math.

(** [kind] is the kind of number that the repository's
    [angle_between_vectors] returns; the sources do not tell, and the
    numerator of the last line inherits it.  Squares and products are
    exact. *)
Definition piecewise_gaussian (kind : scalar_kind) (xPa xPb : vec3)
    (theta_0 sigma_1 sigma_2 : R) : result float64 :=
  (* 1. the angle between the two rays *)
  theta_est <- angle_between_vectors xPa xPb ;;
  (* 2. the score according to the angle *)
  let sigma := if Rle_dec theta_est theta_0 then sigma_1 else sigma_2 in
  exponent <- true_divide kind (Finite (- ((theta_est - theta_0) ^ 2)))
                          (Finite (2 * sigma ^ 2)) ;;
  math_exp exponent.

(** The call with the default arguments, [theta_0 = 5], [sigma_1 = 1],
    [sigma_2 = 10]. *)
Definition piecewise_gaussian_default (kind : scalar_kind)
    (xPa xPb : vec3) : result float64 :=
  piecewise_gaussian kind xPa xPb 5 1 10.

End mvs_math.

(** ** [src/tests/retriever/test_rig_retriever.py] *)

Module test_rig_retriever.

(** The exceptions of this file: indexing out of bounds or into a scalar,
    iterating a 0-d array, and a reshape or a text file whose sizes do not
    fit. *)
Inductive error : Set :=
| IndexError
| TypeError
| ValueError.

Inductive outcome (A : Type) : Type :=
| Return (a : A)
| Throw (e : error).
Arguments Return {A} a.
Arguments Throw {A} e.

Definition and_then {A B : Type} (r : outcome A) (k : A -> outcome B)
  : outcome B :=
  match r with
  | Return a => k a
  | Throw e => Throw e
  end.

Notation "x <~ e ;; k" := (and_then e (fun x => k))
  (at level 61, e at next level, right associativity).

(** [[f(x) for x in xs]] with an [f] that may raise. *)
Fixpoint for_each {A B : Type} (f : A -> outcome B) (xs : list A)
  : outcome (list B) :=
  match xs with
  | [] => Return []
  | x :: xs' => y <~ f x ;; ys <~ for_each f xs' ;; Return (y :: ys)
  end.

(** What [np.loadtxt] can return: a 0-d, a 1-d or a 2-d array. *)
Inductive ndarray : Type :=
| Array0 (x : R)
| Array1 (v : list R)
| Array2 (rows : list (list R)).

(** What iterating an array yields: scalars or rows. *)
Inductive element : Type :=
| Scalar (x : R)
| Row (v : list R).

(** [a.reshape((n,))] of a 2-d array: its entries in row-major order. *)
Definition reshape_1d (n : nat) (a : list (list R)) : outcome (list R) :=
  let flat := concat a in
  if (length flat =? n)%nat then Return flat else Throw ValueError.

Fixpoint chunks (r c : nat) (v : list R) : list (list R) :=
  match r with
  | O => []
  | S r' => firstn c v :: chunks r' c (skipn c v)
  end.

(** [v.reshape(r, c)] of a 1-d array. *)
Definition reshape_2d (r c : nat) (v : list R) : outcome (list (list R)) :=
  if (length v =? r * c)%nat then Return (chunks r c v)
  else Throw ValueError.

(** [v[i]] *)
Definition getitem (v : list R) (i : nat) : outcome R :=
  match nth_error v i with
  | Some x => Return x
  | None => Throw IndexError
  end.

(** [v[i:j]] *)
Definition slice (v : list R) (i j : nat) : list R :=
  firstn (j - i) (skipn i v).

(** [int(x)] of a float: truncation toward zero. *)
Definition int (x : R) : Z :=
  if Rle_dec 0 x then Int_part x else (- Int_part (- x))%Z.

(** [x.astype(int)] of a float: the conversion to a 64-bit integer.  It
    truncates toward zero; a value outside the 64-bit range becomes
    [-2^63] (x86-64). *)
Definition astype_int (x : R) : Z :=
  let z := int x in
  if ((- 2 ^ 63 <=? z) && (z <? 2 ^ 63))%Z then z else (- 2 ^ 63)%Z.

(** The conversion of an integer to float64, as [np.hstack] does it to
    put integers and floats into one array: up to [2^53] every integer is
    a double; a larger one is rounded to 53 significant bits, ties to the
    even one. *)
Definition nearest_float64 (z : Z) : Z :=
  let m := Z.abs z in
  if (m <=? 2 ^ 53)%Z then z
  else
    let e := (Z.log2 m - 52)%Z in
    let q := (m / 2 ^ e)%Z in
    let r := (m mod 2 ^ e)%Z in
    let half := (2 ^ (e - 1))%Z in
    let q' := if (r <? half)%Z then q
              else if (half <? r)%Z then (q + 1)%Z
              else if Z.even q then q else (q + 1)%Z in
    (Z.sgn z * (q' * 2 ^ e))%Z.

(** [np.rint]: the nearest integer, ties to the even one. *)
Definition rint (x : R) : Z :=
  let f := Int_part x in
  if Rlt_dec (x - IZR f) (1 / 2) then f
  else if Rlt_dec (1 / 2) (x - IZR f) then (f + 1)%Z
  else if Z.even f then f else (f + 1)%Z.

(** [np.round(x, decimals)] *)
Definition np_round (decimals : nat) (x : R) : R :=
  IZR (rint (x * 10 ^ decimals)) / 10 ^ decimals.

(** [np.loadtxt] of a text file, given the numbers of its non-blank lines:
    an empty file is an empty 1-d array, lines of different lengths are a
    [ValueError], and axes of length one are squeezed away. *)
Definition np_loadtxt (lines : list (list R)) : outcome ndarray :=
  match lines with
  | [] => Return (Array1 [])
  | first :: rest =>
      if forallb (fun l => (length l =? length first)%nat) rest then
        match lines, first with
        | [[x]], _ => Return (Array0 x)
        | [l], _ => Return (Array1 l)
        | _, [_] => Return (Array1 (concat lines))
        | _, _ => Return (Array2 lines)
        end
      else Throw ValueError
  end.

(** [for row in array] *)
Definition iterate (x : ndarray) : outcome (list element) :=
  match x with
  | Array0 _ => Throw TypeError
  | Array1 v => Return (map Scalar v)
  | Array2 rows => Return (map Row rows)
  end.

Section Constraints.
(** gtsam's [Pose3]: built from a 4x4 matrix, and giving one back. *)
Variable Pose3 : Type.
Variable Pose3_new : list (list R) -> Pose3.
Variable Pose3_matrix : Pose3 -> list (list R).

(** The two indices are Python integers; the covariance and the counts
    are arrays of doubles, as [np.eye] and [np.zeros] make them. *)
Record Constraint : Type := mkConstraint {
  a : Z;
  b : Z;
  aTb : Pose3;
  cov : list (list R);
  counts : list (list R)
}.

(** [Constraint.from_row], on a 1-d array. *)
Definition from_row (row : list R) : outcome Constraint :=
  r0 <~ getitem row 0 ;;
  let a := int r0 in
  r1 <~ getitem row 1 ;;
  let b := int r1 in
  top <~ reshape_2d 3 4 (slice row 2 (2 + 12)) ;;
  let aTb_mat := top ++ [[0; 0; 0; 1]] in
  let aTb_mat := map (map (np_round 15)) aTb_mat in
  let aTb := Pose3_new aTb_mat in
  cov <~ reshape_2d 6 6 (slice row 14 (14 + 36)) ;;
  counts <~ reshape_2d 5 5 (skipn 50 row) ;;
  let counts := map (map (fun x => IZR (astype_int x))) counts in
  Return (mkConstraint a b aTb cov counts).

(** The constraint that the fields of a row of 75 numbers spell out. *)
Definition parsed (row : list R) : Constraint :=
  mkConstraint
    (int (nth 0 row 0)) (int (nth 1 row 0))
    (Pose3_new (map (map (np_round 15))
                    (chunks 3 4 (slice row 2 14) ++ [[0; 0; 0; 1]])))
    (chunks 6 6 (slice row 14 50))
    (map (map (fun x => IZR (astype_int x))) (chunks 5 5 (skipn 50 row))).

(** [Constraint.from_row], on whatever the iteration hands over: a scalar
    cannot be indexed. *)
Definition from_row_element (x : element) : outcome Constraint :=
  match x with
  | Scalar _ => Throw IndexError
  | Row v => from_row v
  end.

(** [Constraint.to_row]: [np.hstack] turns the two indices into doubles.
    (Indices of 64 bits or more would make another kind of array; the
    theorems about the entries of the row bound them.) *)
Definition to_row (c : Constraint) : outcome (list R) :=
  m <~ reshape_1d 12 (firstn 3 (Pose3_matrix (aTb c))) ;;
  cv <~ reshape_1d (6 * 6) (cov c) ;;
  ct <~ reshape_1d 25 (counts c) ;;
  Return ([IZR (nearest_float64 (a c))] ++ [IZR (nearest_float64 (b c))]
          ++ m ++ cv ++ ct).

(** The constraints of the tests: indices and counts that are integers of
    at most 53 bits, a pose whose matrix is 4x4 with the last row
    [0 0 0 1] and entries of magnitude at most [2^16], a 6x6 covariance
    and 5x5 counts. *)
Definition well_formed (c : Constraint) : Prop :=
  (Z.abs (a c) <= 2 ^ 53)%Z
  /\ (Z.abs (b c) <= 2 ^ 53)%Z
  /\ length (Pose3_matrix (aTb c)) = 4%nat
  /\ Forall (fun row => length row = 4%nat) (Pose3_matrix (aTb c))
  /\ nth 3 (Pose3_matrix (aTb c)) [] = [0; 0; 0; 1]
  /\ Forall (Forall (fun x => Rabs x <= 2 ^ 16)) (Pose3_matrix (aTb c))
  /\ length (cov c) = 6%nat
  /\ Forall (fun row => length row = 6%nat) (cov c)
  /\ length (counts c) = 5%nat
  /\ Forall (fun row => length row = 5%nat) (counts c)
  /\ Forall (Forall (fun x => IZR (int x) = x /\ Rabs x <= 2 ^ 53))
       (counts c).

(** What a well-formed constraint becomes when it is written and read
    again: the same indices, covariance and counts, and the pose that
    gtsam builds from the matrix of the old one rounded to 15 decimals. *)
Definition reread (c : Constraint) : Constraint :=
  mkConstraint (a c) (b c)
    (Pose3_new (map (map (np_round 15)) (Pose3_matrix (aTb c))))
    (cov c) (counts c).

(** [Constraint.write]: the lines that [np.savetxt] writes, one per
    constraint; the numbers are written with enough digits to be read
    back unchanged. *)
Definition write (constraints : list Constraint)
  : outcome (list (list R)) :=
  for_each to_row constraints.

(** [Constraint.read], on the numbers of the file's lines. *)
Definition read (lines : list (list R)) : outcome (list Constraint) :=
  constraint_matrix <~ np_loadtxt lines ;;
  rows <~ iterate constraint_matrix ;;
  for_each from_row_element rows.

(** [RigRetriever.run]: the loader is not used. *)
Definition run (constraints_file : list (list R))
  : outcome (list (Z * Z)) :=
  constraints <~ read constraints_file ;;
  Return (map (fun c => (a c, b c)) constraints).

End Constraints.

(** Two matrices of the same shape whose entries differ by at most
    [tol]. *)
Definition within (tol : R) (m m' : list (list R)) : Prop :=
  Forall2 (Forall2 (fun x y => Rabs (y - x) <= tol)) m m'.

(** For the examples a pose is its own 4x4 matrix.  The first constraint
    of [TestConstraint.setUp]: a quarter turn about
    the vertical axis, whose cosine is the double [6.123e-17], and the
    translation [(1, 2, 3)]; variances of [1e-3]; one count of 200. *)
Definition quarter_turn_pose : list (list R) :=
  [[6123 / 10 ^ 20; -1; 0; 1];
   [1; 6123 / 10 ^ 20; 0; 2];
   [0; 0; 1; 3];
   [0; 0; 0; 1]].

Definition a_constraint_b : Constraint (list (list R)) :=
  mkConstraint (list (list R)) 1 2 quarter_turn_pose
    [[1 / 1000; 0; 0; 0; 0; 0];
     [0; 1 / 1000; 0; 0; 0; 0];
     [0; 0; 1 / 1000; 0; 0; 0];
     [0; 0; 0; 1 / 1000; 0; 0];
     [0; 0; 0; 0; 1 / 1000; 0];
     [0; 0; 0; 0; 0; 1 / 1000]]
    ([200; 0; 0; 0; 0] :: repeat (repeat 0 5) 4).

End test_rig_retriever.

(** ** The per-row formulas of the specification (section 4.2) *)

Module spec.

(** "project point1 through F to get line2 in image2" *)
Definition line2 (F : mat33) (point1 : R * R) : vec3 :=
  mat_vec F (convert_to_homogenous_coordinates point1).

(** "and point2 through F^T to get line1 in image1" *)
Definition line1 (F : mat33) (point2 : R * R) : vec3 :=
  mat_vec (transpose F) (convert_to_homogenous_coordinates point2).

(** "Numerator = unnormalized incidence of point1 against line1" *)
Definition numerator (F : mat33) (point1 point2 : R * R) : R :=
  dot (convert_to_homogenous_coordinates point1) (line1 F point2).

(** "numerator . sqrt(1/|line1_xy|^2 + 1/|line2_xy|^2)" *)
Definition sed (F : mat33) (point1 point2 : R * R) : float64 :=
  f64_mul (Finite (numerator F point1 point2))
    (f64_sqrt
       (f64_add
          (f64_div (Finite 1) (Finite (sq_norm_xy (line1 F point2))))
          (f64_div (Finite 1) (Finite (sq_norm_xy (line2 F point1)))))).

(** "same numerator; denominator = sqrt(|line1_xy|^2 + |line2_xy|^2)" *)
Definition sampson (F : mat33) (point1 point2 : R * R) : float64 :=
  f64_div (Finite (numerator F point1 point2))
    (f64_sqrt
       (Finite (sq_norm_xy (line1 F point2) + sq_norm_xy (line2 F point1)))).

(** "absent (None) or empty (zero elements)" *)
Definition absent_or_empty (c : option coords) : Prop :=
  c = None \/ c = Some [].

(** "sigma = sigma_near if theta <= theta0 (tie included), else
    sigma_far" *)
Definition selected_width (theta theta_0 sigma_1 sigma_2 sigma : R) : Prop :=
  (theta <= theta_0 /\ sigma = sigma_1)
  \/ (theta_0 < theta /\ sigma = sigma_2).

(** "Score = exp( -(theta - theta0)^2 / (2 sigma^2) )" *)
Definition score (theta theta_0 sigma : R) : R :=
  exp (- (theta - theta_0) ^ 2 / (2 * sigma ^ 2)).

(** The exponent of the score. *)
Definition exponent (theta theta_0 sigma : R) : R :=
  - (theta - theta_0) ^ 2 / (2 * sigma ^ 2).

(** "for any valid theta0/sigma_near/sigma_far": a finite threshold and a
    nonzero width, both far inside the range of the doubles, so that
    neither the squares nor the division leave it. *)
Definition valid_parameters (theta_0 sigma : R) : Prop :=
  Rabs theta_0 <= 2 ^ 500 /\ / 2 ^ 500 <= Rabs sigma <= 2 ^ 500.

End spec.

(** * Properties *)

(** Decide the comparisons of real numbers that the code makes. *)
Ltac decide_reals :=
  repeat match goal with
    | |- context [Rle_dec ?a ?b] =>
        destruct (Rle_dec a b); try (exfalso; lra)
    | |- context [Rlt_dec ?a ?b] =>
        destruct (Rlt_dec a b); try (exfalso; lra)
    | |- context [Req_dec_T ?a ?b] =>
        destruct (Req_dec_T a b); try (exfalso; lra)
    end.

(** ** Linear algebra of 3x3 matrices *)

Ltac destruct_mat m :=
  destruct m as [[[[? ?] ?] [[? ?] ?]] [[? ?] ?]].

Lemma mat33_ext (a b c d e f g h i a' b' c' d' e' f' g' h' i' : R) :
  a = a' -> b = b' -> c = c' -> d = d' -> e = e' -> f = f' ->
  g = g' -> h = h' -> i = i' ->
  ((a, b, c), (d, e, f), (g, h, i)) = (((a', b', c'), (d', e', f'), (g', h', i')) : mat33).
Proof. intros; subst; reflexivity. Qed.

Tactic Notation "mat_eq" tactic(tac) :=
  cbn [matmul transpose dot scale adjugate identity mat_vec fst snd];
  apply mat33_ext; tac.

Lemma matmul_assoc (a b c : mat33) :
  matmul (matmul a b) c = matmul a (matmul b c).
Proof.
  destruct_mat a; destruct_mat b; destruct_mat c. mat_eq ring.
Qed.

Lemma matmul_identity_l (a : mat33) : matmul identity a = a.
Proof. destruct_mat a. mat_eq ring. Qed.

Lemma matmul_identity_r (a : mat33) : matmul a identity = a.
Proof. destruct_mat a. mat_eq ring. Qed.

Lemma det_transpose (a : mat33) : det (transpose a) = det a.
Proof. destruct_mat a. cbn [det transpose]. ring. Qed.

Lemma transpose_involutive (a : mat33) : transpose (transpose a) = a.
Proof. destruct_mat a. reflexivity. Qed.

Lemma adjugate_l (a : mat33) :
  matmul (adjugate a) a = scale (det a) identity.
Proof. destruct_mat a. cbn [det]. mat_eq ring. Qed.

Lemma adjugate_r (a : mat33) :
  matmul a (adjugate a) = scale (det a) identity.
Proof. destruct_mat a. cbn [det]. mat_eq ring. Qed.

Lemma scale_matmul_l (k : R) (a b : mat33) :
  matmul (scale k a) b = scale k (matmul a b).
Proof. destruct_mat a; destruct_mat b. mat_eq ring. Qed.

Lemma scale_matmul_r (k : R) (a b : mat33) :
  matmul a (scale k b) = scale k (matmul a b).
Proof. destruct_mat a; destruct_mat b. mat_eq ring. Qed.

Lemma scale_scale_identity (k l : R) :
  k * l = 1 -> scale k (scale l identity) = identity.
Proof.
  intros Hkl. cbn [scale identity].
  apply mat33_ext; try ring; rewrite Rmult_1_r; exact Hkl.
Qed.

(** [np.linalg.inv] succeeds exactly on the matrices of nonzero
    determinant, and what it returns is a two-sided inverse. *)
Lemma np_linalg_inv_ok (a : mat33) :
  det a <> 0 -> np_linalg_inv a = Ok (scale (/ det a) (adjugate a)).
Proof.
  intros Hd. unfold np_linalg_inv.
  destruct (Req_dec_T (det a) 0) as [H0 | _]; [contradiction | reflexivity].
Qed.

Lemma np_linalg_inv_singular (a : mat33) :
  det a = 0 -> np_linalg_inv a = Raise LinAlgError.
Proof.
  intros Hd. unfold np_linalg_inv.
  destruct (Req_dec_T (det a) 0) as [_ | Hn]; [reflexivity | contradiction].
Qed.

Lemma np_linalg_inv_l (a b : mat33) :
  np_linalg_inv a = Ok b -> matmul b a = identity.
Proof.
  unfold np_linalg_inv.
  destruct (Req_dec_T (det a) 0) as [H0 | Hn]; [discriminate |].
  intros [= <-]. rewrite scale_matmul_l, adjugate_l.
  apply scale_scale_identity. now apply Rinv_l.
Qed.

Lemma np_linalg_inv_r (a b : mat33) :
  np_linalg_inv a = Ok b -> matmul a b = identity.
Proof.
  unfold np_linalg_inv.
  destruct (Req_dec_T (det a) 0) as [H0 | Hn]; [discriminate |].
  intros [= <-]. rewrite scale_matmul_r, adjugate_r.
  apply scale_scale_identity. now apply Rinv_l.
Qed.

(** The essential matrix pairs calibrated rays the way the fundamental
    matrix pairs pixels: [x2 . (E x1) = (K2 x2) . F (K1 x1)]. *)
Lemma fundamental_to_essential_bilinear
    {C : Type} `{Intrinsics C} (F : mat33) (K1 K2 : C) (x1 x2 : vec3) :
  dot x2 (mat_vec (verification.fundamental_to_essential_matrix F K1 K2) x1)
  = dot (mat_vec (K K2) x2) (mat_vec F (mat_vec (K K1) x1)).
Proof.
  unfold verification.fundamental_to_essential_matrix.
  destruct (K K1) as [[[[? ?] ?] [[? ?] ?]] [[? ?] ?]].
  destruct (K K2) as [[[[? ?] ?] [[? ?] ?]] [[? ?] ?]].
  destruct_mat F. destruct x1 as [[? ?] ?]. destruct x2 as [[? ?] ?].
  cbn [matmul transpose dot mat_vec]. ring.
Qed.

(** ** CalibrationConverter *)

Lemma det_K_Cal3Bundler (c : Cal3Bundler) : det (K c) = cal_f c * cal_f c.
Proof. destruct c. cbn. ring. Qed.

(** C1, as stated, at [F = K1 = K2 = identity]: what
    [fundamental_to_essential_matrix] returns is a NumPy array, and
    [essential_to_fundamental_matrix] calls [matrix()] on its first
    argument, which an array does not have; the composition raises
    [AttributeError] and returns no matrix. *)
Lemma roundtrip_on_returned_array_raises :
  verification.essential_to_fundamental_matrix (E := EssentialMatrix)
    (Ndarray (verification.fundamental_to_essential_matrix
                identity unit_camera unit_camera))
    unit_camera unit_camera
  = Raise AttributeError
  /\ verification.essential_to_fundamental_matrix (E := EssentialMatrix)
       (Ndarray (verification.fundamental_to_essential_matrix
                   identity unit_camera unit_camera))
       unit_camera unit_camera
     <> Ok identity.
Proof.
  assert (Hinv : np_linalg_inv (transpose (K unit_camera))
                 = Ok (scale (/ det (transpose (K unit_camera)))
                             (adjugate (transpose (K unit_camera))))).
  { apply np_linalg_inv_ok. rewrite det_transpose, det_K_Cal3Bundler.
    cbn. lra. }
  unfold verification.essential_to_fundamental_matrix.
  rewrite Hinv. cbn [bind call_matrix]. split; [reflexivity | discriminate].
Qed.

(** C1 (amended): for invertible [K1], [K2] and any [F], an essential-matrix
    object whose [matrix()] is [fundamental_to_essential_matrix F K1 K2] is
    converted back to exactly [F] by [essential_to_fundamental_matrix] with
    the same intrinsics. *)
Theorem essential_to_fundamental_inverts_fundamental_to_essential
    {E C : Type} `{HasMatrix E} `{Intrinsics C}
    (F : mat33) (K1 K2 : C) (e : E) :
  det (K K1) <> 0 ->
  det (K K2) <> 0 ->
  matrix e = verification.fundamental_to_essential_matrix F K1 K2 ->
  verification.essential_to_fundamental_matrix (Object e) K1 K2 = Ok F.
Proof.
  intros H1 H2 He.
  unfold verification.essential_to_fundamental_matrix.
  destruct (np_linalg_inv (transpose (K K2))) as [i2 | x] eqn:Hi2.
  2:{ rewrite np_linalg_inv_ok in Hi2 by now rewrite det_transpose.
      discriminate. }
  destruct (np_linalg_inv (K K1)) as [i1 | x] eqn:Hi1.
  2:{ rewrite np_linalg_inv_ok in Hi1 by assumption. discriminate. }
  cbn [bind call_matrix]. rewrite He.
  unfold verification.fundamental_to_essential_matrix.
  apply np_linalg_inv_l in Hi2. apply np_linalg_inv_r in Hi1.
  f_equal.
  rewrite (matmul_assoc (transpose (K K2)) F (K K1)).
  rewrite <- (matmul_assoc i2 (transpose (K K2)) (matmul F (K K1))).
  rewrite Hi2, matmul_identity_l, matmul_assoc, Hi1.
  apply matmul_identity_r.
Qed.

Lemma essential_to_fundamental_inverts_witness :
  det (K unit_camera) <> 0 /\
  det (K unit_camera) <> 0 /\
  matrix sideways
  = verification.fundamental_to_essential_matrix
      (skew (1, 0, 0)) unit_camera unit_camera /\
  verification.essential_to_fundamental_matrix
    (Object sideways) unit_camera unit_camera
  = Ok (skew (1, 0, 0)).
Proof.
  assert (Hd : det (K unit_camera) <> 0).
  { rewrite det_K_Cal3Bundler. cbn. lra. }
  assert (Hm : matrix sideways
               = verification.fundamental_to_essential_matrix
                   (skew (1, 0, 0)) unit_camera unit_camera).
  { cbn. apply mat33_ext; ring. }
  repeat split; try assumption.
  exact (essential_to_fundamental_inverts_fundamental_to_essential
           (skew (1, 0, 0)) unit_camera unit_camera sideways Hd Hd Hm).
Defined.

(** C9, on [src/utils/verification.py]: whatever [F] and whatever intrinsics
    are passed, [fundamental_to_essential_matrix] reads the name [fy], which
    no scope binds, and raises [NameError]; it returns no matrix and never
    looks at its intrinsics. *)
Theorem utils_fundamental_to_essential_raises_NameError
    {C : Type} `{Intrinsics C} (F : mat33) (K1 K2 : C) :
  utils_verification.fundamental_to_essential_matrix F K1 K2
  = Raise NameError.
Proof. reflexivity. Qed.

(** On [src/gtsfm/utils/verification.py] the same function is
    [K2^T @ F @ K1] of the intrinsics it is given. *)
Lemma fundamental_to_essential_matrix_eq
    {C : Type} `{Intrinsics C} (F : mat33) (K1 K2 : C) :
  verification.fundamental_to_essential_matrix F K1 K2
  = matmul (transpose (K K2)) (matmul F (K K1)).
Proof.
  unfold verification.fundamental_to_essential_matrix.
  apply matmul_assoc.
Qed.

(** C10: when [K1] or [K2] has no inverse, [essential_to_fundamental_matrix]
    raises the singular-matrix error of [np.linalg.inv] for every
    essential-matrix object, and so returns no matrix. *)
Theorem essential_to_fundamental_singular_raises
    {E C : Type} `{HasMatrix E} `{Intrinsics C} (e : E) (K1 K2 : C) :
  det (K K1) = 0 \/ det (K K2) = 0 ->
  verification.essential_to_fundamental_matrix (Object e) K1 K2
  = Raise LinAlgError
  /\ forall F : mat33,
       verification.essential_to_fundamental_matrix (Object e) K1 K2 <> Ok F.
Proof.
  intros Hs.
  assert (Hr : verification.essential_to_fundamental_matrix (Object e) K1 K2
               = Raise LinAlgError).
  { unfold verification.essential_to_fundamental_matrix.
    destruct (Req_dec_T (det (K K2)) 0) as [Hz2 | Hn2].
    - rewrite np_linalg_inv_singular by now rewrite det_transpose.
      reflexivity.
    - destruct Hs as [Hz1 | Hz2]; [| contradiction].
      rewrite np_linalg_inv_ok by now rewrite det_transpose.
      cbn [bind call_matrix].
      rewrite np_linalg_inv_singular by assumption. reflexivity. }
  split; [exact Hr |]. intros F HF. rewrite Hr in HF. discriminate.
Qed.

Lemma essential_to_fundamental_singular_witness :
  (det (K zero_focal_camera) = 0 \/ det (K unit_camera) = 0) /\
  verification.essential_to_fundamental_matrix
    (Object sideways) zero_focal_camera unit_camera
  = Raise LinAlgError.
Proof.
  assert (Hz : det (K zero_focal_camera) = 0 \/ det (K unit_camera) = 0).
  { left. rewrite det_K_Cal3Bundler. cbn. ring. }
  split; [exact Hz |].
  exact (proj1 (essential_to_fundamental_singular_raises
                  sideways zero_focal_camera unit_camera Hz)).
Defined.

(** ** Arrays: row-wise maps and broadcasting *)

Lemma broadcast_same_length {A B X : Type} (f : A -> B -> X)
    (xs : list A) (ys : list B) :
  length xs = length ys -> broadcast f xs ys = Ok (map2 f xs ys).
Proof.
  intros Hl. unfold broadcast.
  now rewrite (proj2 (Nat.eqb_eq _ _) Hl).
Qed.

Lemma length_map2 {A B X : Type} (f : A -> B -> X)
    (xs : list A) (ys : list B) :
  length xs = length ys -> length (map2 f xs ys) = length xs.
Proof.
  revert ys. induction xs as [| x xs IH]; intros [| y ys] Hl;
    cbn in *; try discriminate; [reflexivity |].
  f_equal. apply IH. now injection Hl.
Qed.

Lemma map2_map_l {A A' B X : Type} (f : A' -> B -> X) (g : A -> A')
    (xs : list A) (ys : list B) :
  map2 f (map g xs) ys = map2 (fun x y => f (g x) y) xs ys.
Proof.
  revert ys. induction xs as [| x xs IH]; intros [| y ys]; cbn;
    try reflexivity.
  now rewrite IH.
Qed.

Lemma map2_map_r {A B B' X : Type} (f : A -> B' -> X) (g : B -> B')
    (xs : list A) (ys : list B) :
  map2 f xs (map g ys) = map2 (fun x y => f x (g y)) xs ys.
Proof.
  revert ys. induction xs as [| x xs IH]; intros [| y ys]; cbn;
    try reflexivity.
  now rewrite IH.
Qed.

Lemma map_map2 {A B X Y : Type} (g : X -> Y) (f : A -> B -> X)
    (xs : list A) (ys : list B) :
  map g (map2 f xs ys) = map2 (fun x y => g (f x y)) xs ys.
Proof.
  revert ys. induction xs as [| x xs IH]; intros [| y ys]; cbn;
    try reflexivity.
  now rewrite IH.
Qed.

Lemma map2_flip {A B X : Type} (f : A -> B -> X)
    (xs : list A) (ys : list B) :
  map2 f xs ys = map2 (fun y x => f x y) ys xs.
Proof.
  revert ys. induction xs as [| x xs IH]; intros [| y ys]; cbn;
    try reflexivity.
  now rewrite IH.
Qed.

Lemma map2_map2 {A B X Y Z : Type} (f : X -> Y -> Z)
    (g : A -> B -> X) (h : A -> B -> Y) (xs : list A) (ys : list B) :
  map2 f (map2 g xs ys) (map2 h xs ys)
  = map2 (fun x y => f (g x y) (h x y)) xs ys.
Proof.
  revert ys. induction xs as [| x xs IH]; intros [| y ys]; cbn;
    try reflexivity.
  now rewrite IH.
Qed.

Lemma size_nonempty (c : coords) : c <> [] -> (size c =? 0)%nat = false.
Proof.
  destruct c as [| p c]; [congruence |]. intros _. reflexivity.
Qed.

(** The numerator both metrics share, computed over whole arrays. *)
Lemma point_line_dotproduct_rows (c1 c2 : coords) (F : mat33) :
  length c1 = length c2 ->
  point_line_dotproduct c1 (convert_to_epipolar_lines c2 (transpose F))
  = Ok (map2 (spec.numerator F) c1 c2).
Proof.
  intros Hl. unfold point_line_dotproduct, convert_to_epipolar_lines.
  rewrite broadcast_same_length by now rewrite length_map.
  now rewrite map2_map_r.
Qed.

(** ** EpipolarScorer *)

(** C2: on two non-empty arrays of the same number of rows,
    [compute_epipolar_distances_sed] returns, row by row, the numerator
    (the incidence of the homogeneous point 1 with line 1) times
    [sqrt(1/|line1_xy|^2 + 1/|line2_xy|^2)], where line 2 is [F] applied to
    point 1 and line 1 is [F^T] applied to point 2. *)
Theorem compute_epipolar_distances_sed_rows
    (c1 c2 : coords) (F : mat33) :
  length c1 = length c2 ->
  c1 <> [] ->
  verification.compute_epipolar_distances_sed (Some c1) (Some c2) F
  = Ok (Some (map2 (spec.sed F) c1 c2))
  /\ length (map2 (spec.sed F) c1 c2) = length c1.
Proof.
  intros Hl Hne.
  assert (Hne2 : c2 <> []).
  { intros ->. destruct c1; [congruence | discriminate]. }
  split; [| now apply length_map2].
  unfold verification.compute_epipolar_distances_sed.
  rewrite (size_nonempty c1 Hne), (size_nonempty c2 Hne2). cbn [orb].
  rewrite point_line_dotproduct_rows by assumption. cbn [bind].
  unfold convert_to_epipolar_lines. rewrite !map_map.
  rewrite broadcast_same_length by (rewrite !length_map; congruence).
  cbn [bind]. rewrite map2_map_l, map2_map_r, map_map2.
  rewrite (map2_flip _ c2 c1), map_map2.
  rewrite broadcast_same_length
    by (rewrite !length_map2; congruence).
  cbn [bind]. now rewrite map2_map2.
Qed.

Lemma compute_epipolar_distances_sed_rows_witness :
  length [(1, 2)] = length [(3, 4)] /\
  [(1, 2)] <> ([] : coords) /\
  verification.compute_epipolar_distances_sed
    (Some [(1, 2)]) (Some [(3, 4)]) identity
  = Ok (Some [spec.sed identity (1, 2) (3, 4)]).
Proof.
  split; [reflexivity |]. split; [discriminate |].
  exact (proj1 (compute_epipolar_distances_sed_rows
                  [(1, 2)] [(3, 4)] identity eq_refl
                  (fun H => eq_ind [(1, 2)]
                     (fun l : coords =>
                        match l with [] => False | _ :: _ => True end)
                     I [] H))).
Defined.

(** C3: on the same inputs [compute_epipolar_distances_sampson] returns,
    row by row, the numerator of the symmetric distance divided by
    [sqrt(|line1_xy|^2 + |line2_xy|^2)]. *)
Theorem compute_epipolar_distances_sampson_rows
    (c1 c2 : coords) (F : mat33) :
  length c1 = length c2 ->
  c1 <> [] ->
  verification.compute_epipolar_distances_sampson (Some c1) (Some c2) F
  = Ok (Some (map2 (spec.sampson F) c1 c2))
  /\ length (map2 (spec.sampson F) c1 c2) = length c1.
Proof.
  intros Hl Hne.
  assert (Hne2 : c2 <> []).
  { intros ->. destruct c1; [congruence | discriminate]. }
  split; [| now apply length_map2].
  unfold verification.compute_epipolar_distances_sampson.
  rewrite (size_nonempty c1 Hne), (size_nonempty c2 Hne2). cbn [orb].
  rewrite point_line_dotproduct_rows by assumption. cbn [bind].
  unfold convert_to_epipolar_lines. rewrite !map_map.
  rewrite broadcast_same_length by (rewrite !length_map; congruence).
  cbn [bind]. rewrite map2_map_l, map2_map_r, map_map2.
  rewrite (map2_flip _ c2 c1), map_map2.
  rewrite broadcast_same_length
    by (rewrite !length_map2; congruence).
  cbn [bind]. now rewrite map2_map2.
Qed.

Lemma compute_epipolar_distances_sampson_rows_witness :
  length [(1, 2)] = length [(3, 4)] /\
  [(1, 2)] <> ([] : coords) /\
  verification.compute_epipolar_distances_sampson
    (Some [(1, 2)]) (Some [(3, 4)]) identity
  = Ok (Some [spec.sampson identity (1, 2) (3, 4)]).
Proof.
  split; [reflexivity |]. split; [discriminate |].
  exact (proj1 (compute_epipolar_distances_sampson_rows
                  [(1, 2)] [(3, 4)] identity eq_refl
                  (fun H => eq_ind [(1, 2)]
                     (fun l : coords =>
                        match l with [] => False | _ :: _ => True end)
                     I [] H))).
Defined.

(** C4: for every [F], both metrics return [None], and raise nothing, as
    soon as one of the two coordinate arrays is [None] or has no element. *)
Theorem epipolar_distances_no_data
    (coordinates_i1 coordinates_i2 : option coords) (F : mat33) :
  spec.absent_or_empty coordinates_i1 \/ spec.absent_or_empty coordinates_i2 ->
  verification.compute_epipolar_distances_sed
    coordinates_i1 coordinates_i2 F = Ok None
  /\ verification.compute_epipolar_distances_sampson
       coordinates_i1 coordinates_i2 F = Ok None.
Proof.
  unfold spec.absent_or_empty,
    verification.compute_epipolar_distances_sed,
    verification.compute_epipolar_distances_sampson.
  intros [[-> | ->] | [-> | ->]];
    destruct coordinates_i1 as [c1 |] || destruct coordinates_i2 as [c2 |];
    cbn [size length Nat.mul Nat.eqb orb];
    rewrite ?orb_true_r; split; reflexivity.
Qed.

Lemma epipolar_distances_no_data_witness :
  (spec.absent_or_empty (Some [(1, 2)]) \/ spec.absent_or_empty (Some [])) /\
  verification.compute_epipolar_distances_sed
    (Some [(1, 2)]) (Some []) identity = Ok None /\
  verification.compute_epipolar_distances_sampson
    (Some [(1, 2)]) (Some []) identity = Ok None.
Proof.
  split; [right; right; reflexivity |].
  exact (epipolar_distances_no_data (Some [(1, 2)]) (Some []) identity
           (or_intror (or_intror eq_refl))).
Defined.

(** A line of zero xy-norm makes the symmetric distance of its row
    non-finite, whatever the other line and the numerator are. *)
Lemma sed_zero_norm_not_finite (F : mat33) (p1 p2 : R * R) :
  sq_norm_xy (spec.line1 F p2) = 0 \/ sq_norm_xy (spec.line2 F p1) = 0 ->
  isfinite (spec.sed F p1 p2) = false.
Proof.
  assert (Hsq : forall l, 0 <= sq_norm_xy l).
  { intros [[a b] c]. cbn. nra. }
  pose proof (Hsq (spec.line1 F p2)) as H1.
  pose proof (Hsq (spec.line2 F p1)) as H2.
  unfold spec.sed.
  generalize dependent (sq_norm_xy (spec.line1 F p2)).
  generalize dependent (sq_norm_xy (spec.line2 F p1)).
  generalize (spec.numerator F p1 p2).
  intros n d2 H2 d1 H1 Hz.
  cbn [f64_div]. unfold scale_inf.
  destruct (Req_dec_T d1 0), (Req_dec_T d2 0); try lra;
    decide_reals; cbn [f64_add f64_sqrt f64_mul]; unfold scale_inf;
    decide_reals; reflexivity.
Qed.

(** Both lines of zero xy-norm make the Sampson distance of the row
    non-finite. *)
Lemma sampson_zero_norms_not_finite (F : mat33) (p1 p2 : R * R) :
  sq_norm_xy (spec.line1 F p2) = 0 ->
  sq_norm_xy (spec.line2 F p1) = 0 ->
  isfinite (spec.sampson F p1 p2) = false.
Proof.
  intros H1 H2. unfold spec.sampson.
  rewrite H1, H2, Rplus_0_r. cbn [f64_sqrt].
  destruct (Rlt_dec 0 0); [lra |]. rewrite sqrt_0.
  cbn [f64_div]. unfold scale_inf.
  destruct (Req_dec_T 0 0); [| lra]. decide_reals; reflexivity.
Qed.

(** C7: the divisions by the line norms are not guarded.  With
    [F = exchange_F] and the single correspondence (0,0), (0,0) both
    epipolar lines are (0, 0, 1), of xy-norm exactly zero, and both
    metrics return normally an array whose only row is the non-finite
    value +inf: no exception, no clamping. *)
Theorem unguarded_division_propagates_non_finite :
  exists (c1 c2 : coords) (F : mat33),
    (forall p2, In p2 c2 -> sq_norm_xy (spec.line1 F p2) = 0) /\
    (forall p1, In p1 c1 -> sq_norm_xy (spec.line2 F p1) = 0) /\
    verification.compute_epipolar_distances_sed (Some c1) (Some c2) F
    = Ok (Some [PosInf]) /\
    verification.compute_epipolar_distances_sampson (Some c1) (Some c2) F
    = Ok (Some [PosInf]) /\
    isfinite PosInf = false.
Proof.
  exists [(0, 0)], [(0, 0)], exchange_F.
  assert (Hl : spec.line1 exchange_F (0, 0) = (0, 0, 1)
               /\ spec.line2 exchange_F (0, 0) = (0, 0, 1)).
  { unfold spec.line1, spec.line2. cbn.
    split; repeat (apply f_equal2); ring. }
  destruct Hl as [Hl1 Hl2].
  assert (Hn : spec.numerator exchange_F (0, 0) (0, 0) = 1).
  { unfold spec.numerator. rewrite Hl1. cbn. ring. }
  assert (Hz : sq_norm_xy (0, 0, 1) = 0) by (cbn; ring).
  split; [intros p [<- | []]; now rewrite Hl1 |].
  split; [intros p [<- | []]; now rewrite Hl2 |].
  split; [| split; [| reflexivity]].
  - unfold verification.compute_epipolar_distances_sed,
      point_line_dotproduct, convert_to_epipolar_lines.
    cbn [size length Nat.mul Nat.eqb orb map broadcast map2 bind].
    fold (spec.line1 exchange_F (0, 0)). fold (spec.line2 exchange_F (0, 0)).
    fold (spec.numerator exchange_F (0, 0) (0, 0)).
    rewrite Hl1, Hl2, Hn, Hz.
    cbn [f64_div]. unfold scale_inf. decide_reals.
    cbn [f64_add f64_sqrt f64_mul]. unfold scale_inf. decide_reals.
    reflexivity.
  - unfold verification.compute_epipolar_distances_sampson,
      point_line_dotproduct, convert_to_epipolar_lines.
    cbn [size length Nat.mul Nat.eqb orb map broadcast map2 bind].
    fold (spec.line1 exchange_F (0, 0)). fold (spec.line2 exchange_F (0, 0)).
    fold (spec.numerator exchange_F (0, 0) (0, 0)).
    rewrite Hl1, Hl2, Hn, Hz, Rplus_0_r.
    cbn [f64_sqrt]. decide_reals. rewrite sqrt_0.
    cbn [f64_div]. unfold scale_inf. decide_reals. reflexivity.
Qed.

(** ** PoseRecoverer *)

(** C5: without an essential matrix, pose recovery returns [(None, None)]
    whatever the coordinates, the intrinsics and the collaborators are; none
    of the collaborators is called. *)
Theorem recover_relative_pose_absent_essential_matrix
    {C : Type} `{Intrinsics C} (Rot3 Unit3 : Type)
    (normalize_coordinates : coords -> C -> result coords)
    (cv_recoverPose :
       mat33 -> coords -> coords -> result (nat * mat33 * vec3 * list bool))
    (Rot3_new : mat33 -> result Rot3) (Unit3_new : vec3 -> result Unit3)
    (verified_coordinates_i1 verified_coordinates_i2 : coords)
    (camera_intrinsics_i1 camera_intrinsics_i2 : C) :
  verification.recover_relative_pose_from_essential_matrix
    Rot3 Unit3 normalize_coordinates cv_recoverPose Rot3_new Unit3_new
    None verified_coordinates_i1 verified_coordinates_i2
    camera_intrinsics_i1 camera_intrinsics_i2
  = Ok (None, None).
Proof. reflexivity. Qed.

(** ** ViewPairScorer *)

Lemma norm_nonzero_pos (v : vec3) : norm v <> 0 -> 0 < norm v.
Proof.
  intros Hn. pose proof (sqrt_pos (dot v v)) as Hp. unfold norm in *. lra.
Qed.

(** With two nonzero rays the angle is defined and lies in [0, 180]. *)
Lemma angle_between_vectors_nonzero (v1 v2 : vec3) :
  norm v1 <> 0 -> norm v2 <> 0 ->
  angle_between_vectors v1 v2 = Ok (angle_deg v1 v2)
  /\ 0 <= angle_deg v1 v2 <= 180.
Proof.
  intros H1 H2. split.
  - unfold angle_between_vectors. decide_reals; try contradiction.
    reflexivity.
  - unfold angle_deg, rad2deg.
    pose proof (acos_bound (dot v1 v2 / (norm v1 * norm v2))) as [Hl Hu].
    pose proof PI_RGT_0 as Hpi.
    split.
    + apply Rmult_le_pos; [lra |]. left. now apply Rinv_0_lt_compat.
    + apply (Rmult_le_reg_r PI); [lra |].
      unfold Rdiv. rewrite Rmult_assoc, Rinv_l by lra. lra.
Qed.


Lemma score_at_threshold (theta_0 sigma : R) :
  spec.score theta_0 theta_0 sigma = 1.
Proof.
  unfold spec.score.
  replace (- (theta_0 - theta_0) ^ 2 / (2 * sigma ^ 2)) with 0.
  - apply exp_0.
  - unfold Rdiv. ring.
Qed.

Lemma exponent_nonpositive (theta theta_0 sigma : R) :
  sigma <> 0 -> spec.exponent theta theta_0 sigma <= 0.
Proof.
  intros Hs. unfold spec.exponent.
  assert (Hden : 0 < 2 * sigma ^ 2) by nra.
  pose proof (pow2_ge_0 (theta - theta_0)) as Hsq.
  pose proof (Rinv_0_lt_compat _ Hden) as Hinv.
  unfold Rdiv. nra.
Qed.



(** *** [math.exp] at the lower end of the doubles *)

Lemma pow2_gt_0 (n : nat) : 0 < 2 ^ n.
Proof. apply pow_lt. lra. Qed.

Lemma exp_INR (n : nat) : exp (INR n) = exp 1 ^ n.
Proof.
  induction n as [| n IH].
  - cbn [INR pow]. apply exp_0.
  - rewrite S_INR, exp_plus, IH. cbn [pow]. ring.
Qed.

Lemma two_le_exp_1 : 2 <= exp 1.
Proof. pose proof (exp_ineq1_le 1). lra. Qed.

Lemma INR_1075 : INR 1075 = 1075.
Proof. rewrite INR_IZR_INZ. f_equal. Qed.

Lemma INR_650 : INR 650 = 650.
Proof. rewrite INR_IZR_INZ. f_equal. Qed.

(** [exp(-1075) <= 2^-1075], since [2 <= e]. *)
Lemma exp_minus_1075 : exp (-1075) <= / 2 ^ 1075.
Proof.
  replace (-1075) with (- INR 1075) by (rewrite INR_1075; lra).
  rewrite exp_Ropp, exp_INR.
  apply Rinv_le_contravar; [apply pow2_gt_0 |].
  apply pow_incr. pose proof two_le_exp_1. lra.
Qed.

(** [2^-1075 < exp(-650)], since [e <= 3] and [3^650 < 2^1075]. *)
Lemma exp_minus_650 : / 2 ^ 1075 < exp (-650).
Proof.
  replace (-650) with (- INR 650) by (rewrite INR_650; lra).
  rewrite exp_Ropp, exp_INR.
  assert (Hpos : 0 < exp 1 ^ 650) by (apply pow_lt, exp_pos).
  apply Rinv_lt_contravar.
  - apply Rmult_lt_0_compat; [exact Hpos | apply pow2_gt_0].
  - apply Rle_lt_trans with (3 ^ 650).
    + apply pow_incr. split; [left; apply exp_pos | apply exp_le_3].
    + rewrite !pow_IZR. apply IZR_lt. vm_compute. reflexivity.
Qed.

Lemma exp_monotone (x y : R) : x <= y -> exp x <= exp y.
Proof.
  intros [Hlt | ->]; [left; now apply exp_increasing | apply Rle_refl].
Qed.

Lemma exp_nonpositive (x : R) : x <= 0 -> exp x <= 1.
Proof. intros Hx. rewrite <- exp_0. now apply exp_monotone. Qed.

Lemma inv_pow2_lt_1 (n : nat) : / 2 ^ S n < 1.
Proof.
  assert (H : 1 < 2 ^ S n) by (apply Rlt_pow_R1; [lra | apply Nat.lt_0_succ]).
  apply Rlt_le_trans with (/ 1); [| rewrite Rinv_1; lra].
  apply Rinv_lt_contravar; lra.
Qed.


Lemma exp_rounded_cases (x : R) :
  exp_rounded x = 0 \/ exp_rounded x = exp x.
Proof. unfold exp_rounded. destruct (Rle_dec _ _); auto. Qed.

Lemma exp_rounded_range (x : R) : x <= 0 -> 0 <= exp_rounded x <= 1.
Proof.
  intros Hx. pose proof (exp_pos x). pose proof (exp_nonpositive x Hx).
  destruct (exp_rounded_cases x) as [-> | ->]; lra.
Qed.


(** Above [-650] the exponential is a positive double. *)
Lemma exp_rounded_exact (x : R) :
  -650 <= x -> exp_rounded x = exp x /\ 0 < exp x.
Proof.
  intros Hx. split; [| apply exp_pos].
  unfold exp_rounded. destruct (Rle_dec _ _) as [Hle | _]; [| reflexivity].
  exfalso. pose proof exp_minus_650 as Hlow.
  pose proof (exp_monotone (-650) x Hx). lra.
Qed.

(** Below [-1075] the exponential is no positive double: the result is
    [0.0]. *)
Lemma exp_rounded_zero (x : R) : x <= -1075 -> exp_rounded x = 0.
Proof.
  intros Hx. unfold exp_rounded.
  destruct (Rle_dec _ _) as [_ | Hgt]; [reflexivity |].
  exfalso. pose proof exp_minus_1075 as Hlow.
  pose proof (exp_monotone x (-1075) Hx). lra.
Qed.


(** [math.exp] of a finite number that is not positive neither overflows
    nor raises. *)
Lemma math_exp_nonpositive (x : R) :
  x <= 0 -> math_exp (Finite x) = Ok (Finite (exp_rounded x)).
Proof.
  intros Hx. cbn [math_exp].
  destruct (Rle_dec (2 ^ 1024) (exp x)) as [Hbig | _]; [| reflexivity].
  exfalso. pose proof (exp_nonpositive x Hx) as Hone.
  assert (Htop : 1 < 2 ^ 1024)
    by (apply Rlt_pow_R1; [lra | apply Nat.lt_0_succ]).
  lra.
Qed.

(** A nonzero divisor: both kinds of number divide alike. *)
Lemma true_divide_nonzero (kind : scalar_kind) (x y : R) :
  y <> 0 -> true_divide kind (Finite x) (Finite y) = Ok (Finite (x / y)).
Proof.
  intros Hy. destruct kind; cbn [true_divide f64_div];
    destruct (Req_dec_T y 0); try contradiction; reflexivity.
Qed.

(** The width the code selects. *)
Lemma selected_width_code (theta theta_0 sigma_1 sigma_2 sigma : R) :
  spec.selected_width theta theta_0 sigma_1 sigma_2 sigma ->
  (if Rle_dec theta theta_0 then sigma_1 else sigma_2) = sigma.
Proof.
  intros [[Hle ->] | [Hlt ->]];
    destruct (Rle_dec theta theta_0); try reflexivity; lra.
Qed.


(** The value of [piecewise_gaussian] on nonzero rays, before any case
    analysis on the width. *)
Lemma piecewise_gaussian_value (kind : scalar_kind)
    (xPa xPb : vec3) (theta_0 sigma_1 sigma_2 sigma : R) :
  norm xPa <> 0 -> norm xPb <> 0 ->
  spec.selected_width (angle_deg xPa xPb) theta_0 sigma_1 sigma_2 sigma ->
  mvs_math.piecewise_gaussian kind xPa xPb theta_0 sigma_1 sigma_2
  = (exponent <- true_divide kind
                   (Finite (- (angle_deg xPa xPb - theta_0) ^ 2))
                   (Finite (2 * sigma ^ 2)) ;;
     math_exp exponent).
Proof.
  intros Ha Hb Hsel.
  destruct (angle_between_vectors_nonzero xPa xPb Ha Hb) as [Hang _].
  unfold mvs_math.piecewise_gaussian. rewrite Hang. cbn [bind].
  now rewrite (selected_width_code _ _ _ _ _ Hsel).
Qed.

(** With a nonzero width the score is the rounded exponential, for both
    kinds of number. *)
Lemma piecewise_gaussian_finite_value (kind : scalar_kind)
    (xPa xPb : vec3) (theta_0 sigma_1 sigma_2 sigma : R) :
  norm xPa <> 0 -> norm xPb <> 0 ->
  spec.selected_width (angle_deg xPa xPb) theta_0 sigma_1 sigma_2 sigma ->
  sigma <> 0 ->
  mvs_math.piecewise_gaussian kind xPa xPb theta_0 sigma_1 sigma_2
  = Ok (Finite (exp_rounded
                  (spec.exponent (angle_deg xPa xPb) theta_0 sigma))).
Proof.
  intros Ha Hb Hsel Hs.
  rewrite (piecewise_gaussian_value kind _ _ _ _ _ _ Ha Hb Hsel).
  assert (Hden : 2 * sigma ^ 2 <> 0) by nra.
  rewrite (true_divide_nonzero kind _ _ Hden). cbn [bind].
  apply math_exp_nonpositive.
  now apply (exponent_nonpositive (angle_deg xPa xPb) theta_0 sigma).
Qed.


Lemma valid_parameters_small (theta_0 sigma : R) :
  Rabs theta_0 <= 10 -> 1 <= Rabs sigma <= 10 ->
  spec.valid_parameters theta_0 sigma.
Proof.
  intros Ht [Hl Hu].
  assert (Hbig : 10 < 2 ^ 500).
  { replace 10 with (IZR 10) by reflexivity.
    replace 2 with (IZR 2) by reflexivity.
    rewrite pow_IZR. apply IZR_lt. vm_compute. reflexivity. }
  assert (Hinv : / 2 ^ 500 < 1) by apply inv_pow2_lt_1.
  unfold spec.valid_parameters. lra.
Qed.

Lemma norm_e1 : norm (1, 0, 0) = 1.
Proof.
  unfold norm. cbn [dot].
  replace (1 * 1 + 0 * 0 + 0 * 0) with 1 by ring. apply sqrt_1.
Qed.

Lemma norm_e2 : norm (0, 1, 0) = 1.
Proof.
  unfold norm. cbn [dot].
  replace (0 * 0 + 1 * 1 + 0 * 0) with 1 by ring. apply sqrt_1.
Qed.

Lemma norm_zero_vector : norm (0, 0, 0) = 0.
Proof.
  unfold norm. cbn [dot].
  replace (0 * 0 + 0 * 0 + 0 * 0) with 0 by ring. apply sqrt_0.
Qed.

(** Perpendicular rays are 90 degrees apart. *)
Lemma angle_deg_e1_e2 : angle_deg (1, 0, 0) (0, 1, 0) = 90.
Proof.
  unfold angle_deg, rad2deg. rewrite norm_e1, norm_e2. cbn [dot].
  replace ((1 * 0 + 0 * 1 + 0 * 0) / (1 * 1)) with 0 by field.
  rewrite acos_0. field. apply PI_neq0.
Qed.

Lemma norm_e1_nonzero : norm (1, 0, 0) <> 0.
Proof. rewrite norm_e1. lra. Qed.

Lemma norm_e2_nonzero : norm (0, 1, 0) <> 0.
Proof. rewrite norm_e2. lra. Qed.




(** Scenario C of the specification: perpendicular rays and the default
    parameters score [exp(-85^2 / 200)]. *)
Example piecewise_gaussian_default_perpendicular (kind : scalar_kind) :
  mvs_math.piecewise_gaussian_default kind (1, 0, 0) (0, 1, 0)
  = Ok (Finite (exp (- (36125 / 1000)))).
Proof.
  assert (Hsel : spec.selected_width
                   (angle_deg (1, 0, 0) (0, 1, 0)) 5 1 10 10).
  { right. rewrite angle_deg_e1_e2. split; [lra | reflexivity]. }
  unfold mvs_math.piecewise_gaussian_default.
  rewrite (piecewise_gaussian_finite_value kind _ _ _ _ _ _
             norm_e1_nonzero norm_e2_nonzero Hsel) by lra.
  rewrite angle_deg_e1_e2.
  replace (spec.exponent 90 5 10) with (- (36125 / 1000))
    by (unfold spec.exponent; field).
  destruct (exp_rounded_exact (- (36125 / 1000))) as [-> _]; [lra |].
  reflexivity.
Qed.

(** C8: when one of the two rays has zero magnitude, [piecewise_gaussian]
    raises [DegenerateVectorError], whatever the parameters, and returns no
    score. *)
Theorem piecewise_gaussian_degenerate_ray (kind : scalar_kind)
    (xPa xPb : vec3) (theta_0 sigma_1 sigma_2 : R) :
  norm xPa = 0 \/ norm xPb = 0 ->
  mvs_math.piecewise_gaussian kind xPa xPb theta_0 sigma_1 sigma_2
  = Raise DegenerateVectorError
  /\ forall s : float64,
       mvs_math.piecewise_gaussian kind xPa xPb theta_0 sigma_1 sigma_2
       <> Ok s.
Proof.
  intros Hz.
  assert (Hr : mvs_math.piecewise_gaussian kind xPa xPb
                 theta_0 sigma_1 sigma_2
               = Raise DegenerateVectorError).
  { unfold mvs_math.piecewise_gaussian, angle_between_vectors.
    destruct (Req_dec_T (norm xPa) 0) as [Ha | Ha]; [reflexivity |].
    destruct (Req_dec_T (norm xPb) 0) as [Hb | Hb]; [reflexivity |].
    destruct Hz; contradiction. }
  split; [exact Hr |]. intros s Hs. rewrite Hr in Hs. discriminate.
Qed.

Lemma piecewise_gaussian_degenerate_ray_witness :
  (norm (0, 0, 0) = 0 \/ norm (0, 1, 0) = 0) /\
  mvs_math.piecewise_gaussian NumPyScalar (0, 0, 0) (0, 1, 0) 5 1 10
  = Raise DegenerateVectorError.
Proof.
  split; [left; exact norm_zero_vector |].
  exact (proj1 (piecewise_gaussian_degenerate_ray NumPyScalar
                  (0, 0, 0) (0, 1, 0) 5 1 10
                  (or_introl norm_zero_vector))).
Defined.

(** * Further properties of the code *)

(** ** Broadcasting *)

Lemma broadcast_single_l {A B X : Type} (f : A -> B -> X)
    (x : A) (ys : list B) :
  broadcast f [x] ys = Ok (map (f x) ys).
Proof.
  unfold broadcast. destruct ys as [| y [| y' ys]]; reflexivity.
Qed.

Lemma broadcast_single_r {A B X : Type} (f : A -> B -> X)
    (xs : list A) (y : B) :
  broadcast f xs [y] = Ok (map (fun x => f x y) xs).
Proof.
  unfold broadcast. destruct xs as [| x [| x' xs]]; reflexivity.
Qed.

Lemma broadcast_mismatch {A B X : Type} (f : A -> B -> X)
    (xs : list A) (ys : list B) :
  length xs <> length ys -> length xs <> 1%nat -> length ys <> 1%nat ->
  broadcast f xs ys = Raise ValueError.
Proof.
  intros Hne Hx Hy. unfold broadcast.
  rewrite (proj2 (Nat.eqb_neq _ _) Hne).
  destruct xs as [| x [| x' xs]]; destruct ys as [| y [| y' ys]];
    cbn in *; congruence.
Qed.

Lemma broadcast_flip {A B X : Type} (f : A -> B -> X)
    (xs : list A) (ys : list B) :
  broadcast f xs ys = broadcast (fun y x => f x y) ys xs.
Proof.
  unfold broadcast. rewrite (Nat.eqb_sym (length ys) (length xs)).
  destruct (length xs =? length ys)%nat eqn:Hl.
  - now rewrite map2_flip.
  - destruct xs as [| x [| x' xs]]; destruct ys as [| y [| y' ys]];
      try reflexivity; discriminate.
Qed.

Lemma broadcast_map {A B X Y : Type} (g : X -> Y) (f : A -> B -> X)
    (xs : list A) (ys : list B) :
  (r <- broadcast f xs ys ;; Ok (map g r))
  = broadcast (fun x y => g (f x y)) xs ys.
Proof.
  unfold broadcast. destruct (length xs =? length ys)%nat.
  - cbn [bind]. now rewrite map_map2.
  - destruct xs as [| x [| x' xs]]; destruct ys as [| y [| y' ys]];
      cbn [bind]; try reflexivity; now rewrite map_map.
Qed.

Lemma broadcast_ext {A B X : Type} (f g : A -> B -> X)
    (xs : list A) (ys : list B) :
  (forall x y, f x y = g x y) -> broadcast f xs ys = broadcast g xs ys.
Proof.
  intros Hfg. unfold broadcast.
  assert (H2 : map2 f xs ys = map2 g xs ys).
  { revert ys. induction xs as [| x xs IH]; intros [| y ys]; cbn;
      try reflexivity. now rewrite Hfg, IH. }
  rewrite H2.
  destruct (length xs =? length ys)%nat; [reflexivity |].
  destruct xs as [| x [| x' xs]]; destruct ys as [| y [| y' ys]];
    try reflexivity; f_equal; apply map_ext; intros; apply Hfg.
Qed.

Lemma length_broadcast_mismatch_cases {A B : Type}
    (xs : list A) (ys : list B) :
  length xs = length ys
  \/ (exists x, xs = [x])
  \/ (exists y, ys = [y])
  \/ (length xs <> length ys /\ length xs <> 1%nat /\ length ys <> 1%nat).
Proof.
  destruct xs as [| x [| x' xs]].
  - destruct ys as [| y [| y' ys]].
    + now left.
    + right; right; left. now exists y.
    + right; right; right. cbn. repeat split; congruence.
  - right; left. now exists x.
  - destruct ys as [| y [| y' ys]].
    + right; right; right. cbn. repeat split; congruence.
    + right; right; left. now exists y.
    + destruct (Nat.eq_dec (length (x :: x' :: xs)) (length (y :: y' :: ys)))
        as [He | Hne]; [now left |].
      right; right; right. split; [exact Hne |].
      cbn. split; congruence.
Qed.

Lemma map2_map_same {A X Y Z : Type} (f : X -> Y -> Z)
    (g : A -> X) (h : A -> Y) (xs : list A) :
  map2 f (map g xs) (map h xs) = map (fun x => f (g x) (h x)) xs.
Proof. induction xs as [| x xs IH]; cbn; [reflexivity | now rewrite IH]. Qed.

(** The symmetric distance over any two non-empty arrays: the per-row
    formula over the rows that NumPy pairs up by broadcasting. *)
Lemma sed_broadcast (c1 c2 : coords) (F : mat33) :
  c1 <> [] -> c2 <> [] ->
  verification.compute_epipolar_distances_sed (Some c1) (Some c2) F
  = (d <- broadcast (spec.sed F) c1 c2 ;; Ok (Some d)).
Proof.
  intros H1 H2.
  unfold verification.compute_epipolar_distances_sed.
  rewrite (size_nonempty c1 H1), (size_nonempty c2 H2). cbn [orb].
  unfold point_line_dotproduct, convert_to_epipolar_lines.
  rewrite !map_map.
  destruct (length_broadcast_mismatch_cases c1 c2)
    as [He | [[p ->] | [[q ->] | (Hne & Hn1 & Hn2)]]].
  - rewrite !broadcast_same_length
      by (rewrite ?length_map; congruence).
    cbn [bind].
    rewrite ?map2_map_l, ?map2_map_r, ?map_map2.
    rewrite (map2_flip _ c2 c1).
    rewrite broadcast_same_length by (rewrite !length_map2; congruence).
    cbn [bind]. now rewrite map2_map2.
  - rewrite !broadcast_single_l. cbn [bind map].
    rewrite ?broadcast_single_r. cbn [bind].
    rewrite !map_map.
    rewrite broadcast_same_length by now rewrite !length_map.
    cbn [bind]. now rewrite map2_map_same.
  - cbn [map]. rewrite !broadcast_single_r. cbn [bind].
    rewrite ?broadcast_single_l. cbn [bind].
    rewrite ?map_map.
    rewrite broadcast_same_length by now rewrite !length_map.
    cbn [bind]. now rewrite map2_map_same.
  - rewrite (broadcast_mismatch (spec.sed F) c1 c2) by assumption.
    rewrite broadcast_mismatch by (rewrite ?length_map; assumption).
    reflexivity.
Qed.

(** The same for the Sampson distance. *)
Lemma sampson_broadcast (c1 c2 : coords) (F : mat33) :
  c1 <> [] -> c2 <> [] ->
  verification.compute_epipolar_distances_sampson (Some c1) (Some c2) F
  = (d <- broadcast (spec.sampson F) c1 c2 ;; Ok (Some d)).
Proof.
  intros H1 H2.
  unfold verification.compute_epipolar_distances_sampson.
  rewrite (size_nonempty c1 H1), (size_nonempty c2 H2). cbn [orb].
  unfold point_line_dotproduct, convert_to_epipolar_lines.
  rewrite !map_map.
  destruct (length_broadcast_mismatch_cases c1 c2)
    as [He | [[p ->] | [[q ->] | (Hne & Hn1 & Hn2)]]].
  - rewrite !broadcast_same_length
      by (rewrite ?length_map; congruence).
    cbn [bind].
    rewrite ?map2_map_l, ?map2_map_r, ?map_map2.
    rewrite (map2_flip _ c2 c1).
    rewrite broadcast_same_length by (rewrite !length_map2; congruence).
    cbn [bind]. now rewrite map2_map2.
  - rewrite !broadcast_single_l. cbn [bind map].
    rewrite ?broadcast_single_r. cbn [bind].
    rewrite !map_map.
    rewrite broadcast_same_length by now rewrite !length_map.
    cbn [bind]. now rewrite map2_map_same.
  - cbn [map]. rewrite !broadcast_single_r. cbn [bind].
    rewrite ?broadcast_single_l. cbn [bind].
    rewrite ?map_map.
    rewrite broadcast_same_length by now rewrite !length_map.
    cbn [bind]. now rewrite map2_map_same.
  - rewrite (broadcast_mismatch (spec.sampson F) c1 c2) by assumption.
    rewrite broadcast_mismatch by (rewrite ?length_map; assumption).
    reflexivity.
Qed.

(** ** CalibrationConverter, continued *)

(** What [essential_to_fundamental_matrix] returns on invertible
    intrinsics. *)
Lemma essential_to_fundamental_ok
    {E C : Type} `{HasMatrix E} `{Intrinsics C} (e : E) (K1 K2 : C) :
  det (K K1) <> 0 -> det (K K2) <> 0 ->
  verification.essential_to_fundamental_matrix (Object e) K1 K2
  = Ok (matmul
          (matmul (scale (/ det (transpose (K K2)))
                         (adjugate (transpose (K K2))))
                  (matrix e))
          (scale (/ det (K K1)) (adjugate (K K1)))).
Proof.
  intros H1 H2. unfold verification.essential_to_fundamental_matrix.
  rewrite np_linalg_inv_ok by now rewrite det_transpose.
  cbn [bind call_matrix]. now rewrite np_linalg_inv_ok.
Qed.

(** A returned fundamental matrix is the essential matrix between a right
    inverse of [K2^T] and a left inverse of [K1]. *)
Lemma essential_to_fundamental_factors
    {E C : Type} `{HasMatrix E} `{Intrinsics C}
    (e : E) (K1 K2 : C) (F : mat33) :
  verification.essential_to_fundamental_matrix (Object e) K1 K2 = Ok F ->
  exists i2 i1 : mat33,
    matmul (transpose (K K2)) i2 = identity
    /\ matmul i1 (K K1) = identity
    /\ F = matmul (matmul i2 (matrix e)) i1.
Proof.
  unfold verification.essential_to_fundamental_matrix.
  destruct (np_linalg_inv (transpose (K K2))) as [i2 | x] eqn:Hi2;
    [| discriminate].
  cbn [bind call_matrix].
  destruct (np_linalg_inv (K K1)) as [i1 | x] eqn:Hi1; [| discriminate].
  cbn [bind]. intros [= <-]. exists i2, i1.
  split; [now apply np_linalg_inv_r |].
  split; [now apply np_linalg_inv_l | reflexivity].
Qed.

Lemma matmul_sandwich_cancel (a i2 m i1 b : mat33) :
  matmul a i2 = identity -> matmul i1 b = identity ->
  matmul (matmul a (matmul (matmul i2 m) i1)) b = m.
Proof.
  intros Ha Hb.
  rewrite <- (matmul_assoc a (matmul i2 m) i1).
  rewrite <- (matmul_assoc a i2 m).
  rewrite Ha, matmul_identity_l, matmul_assoc, Hb.
  apply matmul_identity_r.
Qed.

Lemma vec3_ext (a b c a' b' c' : R) :
  a = a' -> b = b' -> c = c' -> (a, b, c) = ((a', b', c') : vec3).
Proof. intros; subst; reflexivity. Qed.

Lemma mat_vec_matmul (a b : mat33) (v : vec3) :
  mat_vec (matmul a b) v = mat_vec a (mat_vec b v).
Proof.
  destruct_mat a; destruct_mat b; destruct v as [[? ?] ?].
  cbn [matmul transpose dot mat_vec].
  apply vec3_ext; ring.
Qed.

Lemma dot_mat_vec_transpose (a : mat33) (x y : vec3) :
  dot (mat_vec a x) y = dot x (mat_vec (transpose a) y).
Proof.
  destruct_mat a; destruct x as [[? ?] ?]; destruct y as [[? ?] ?].
  cbn [transpose dot mat_vec]. ring.
Qed.

(** Whenever [essential_to_fundamental_matrix] returns a matrix [F],
    [fundamental_to_essential_matrix] with the same intrinsics takes [F]
    back to the array of the essential matrix. *)
Theorem fundamental_to_essential_inverts_essential_to_fundamental
    {E C : Type} `{HasMatrix E} `{Intrinsics C}
    (e : E) (K1 K2 : C) (F : mat33) :
  verification.essential_to_fundamental_matrix (Object e) K1 K2 = Ok F ->
  verification.fundamental_to_essential_matrix F K1 K2 = matrix e.
Proof.
  intros HF.
  destruct (essential_to_fundamental_factors e K1 K2 F HF)
    as (i2 & i1 & H2 & H1 & ->).
  unfold verification.fundamental_to_essential_matrix.
  now apply matmul_sandwich_cancel.
Qed.

Lemma essential_to_fundamental_sideways :
  verification.essential_to_fundamental_matrix
    (Object sideways) unit_camera unit_camera
  = Ok (skew (1, 0, 0)).
Proof.
  rewrite essential_to_fundamental_ok
    by (rewrite det_K_Cal3Bundler; cbn; lra).
  f_equal. cbn. apply mat33_ext; field.
Qed.

Lemma fundamental_to_essential_inverts_witness :
  verification.essential_to_fundamental_matrix
    (Object sideways) unit_camera unit_camera
  = Ok (skew (1, 0, 0))
  /\ verification.fundamental_to_essential_matrix
       (skew (1, 0, 0)) unit_camera unit_camera
     = matrix sideways.
Proof.
  split; [exact essential_to_fundamental_sideways |].
  exact (fundamental_to_essential_inverts_essential_to_fundamental
           sideways unit_camera unit_camera (skew (1, 0, 0))
           essential_to_fundamental_sideways).
Defined.

(** [essential_to_fundamental_matrix] returns a matrix for an
    essential-matrix object exactly when both calibration matrices are
    invertible. *)
Theorem essential_to_fundamental_returns_iff_invertible
    {E C : Type} `{HasMatrix E} `{Intrinsics C} (e : E) (K1 K2 : C) :
  (exists F : mat33,
     verification.essential_to_fundamental_matrix (Object e) K1 K2 = Ok F)
  <-> det (K K1) <> 0 /\ det (K K2) <> 0.
Proof.
  split.
  - intros [F HF]. unfold verification.essential_to_fundamental_matrix in HF.
    split; intros Hz.
    + destruct (np_linalg_inv (transpose (K K2))); [| discriminate].
      cbn [bind call_matrix] in HF.
      rewrite (np_linalg_inv_singular _ Hz) in HF. discriminate.
    + rewrite np_linalg_inv_singular in HF by now rewrite det_transpose.
      discriminate.
  - intros [H1 H2]. eexists. now apply essential_to_fundamental_ok.
Qed.

(** A NumPy array in the place of the essential matrix never yields a
    fundamental matrix: the call raises [LinAlgError] when [K2] is
    singular and [AttributeError] otherwise, whatever [K1] is. *)
Theorem essential_to_fundamental_on_array_raises
    {E C : Type} `{HasMatrix E} `{Intrinsics C}
    (a : mat33) (K1 K2 : C) :
  (det (K K2) = 0 ->
   verification.essential_to_fundamental_matrix (E := E) (Ndarray a) K1 K2
   = Raise LinAlgError)
  /\ (det (K K2) <> 0 ->
      verification.essential_to_fundamental_matrix (E := E) (Ndarray a) K1 K2
      = Raise AttributeError)
  /\ forall F : mat33,
       verification.essential_to_fundamental_matrix (E := E) (Ndarray a) K1 K2
       <> Ok F.
Proof.
  unfold verification.essential_to_fundamental_matrix.
  destruct (Req_dec_T (det (K K2)) 0) as [Hz | Hn].
  - rewrite np_linalg_inv_singular by now rewrite det_transpose.
    repeat split; try reflexivity; try contradiction. discriminate.
  - rewrite np_linalg_inv_ok by now rewrite det_transpose.
    cbn [bind call_matrix].
    repeat split; try reflexivity; try contradiction. discriminate.
Qed.

(** The fundamental matrix returned for an essential-matrix object relates
    pixels the way the essential matrix relates calibrated rays:
    [(K2 x2) . F (K1 x1) = x2 . E x1]. *)
Theorem essential_to_fundamental_preserves_incidence
    {E C : Type} `{HasMatrix E} `{Intrinsics C}
    (e : E) (K1 K2 : C) (F : mat33) (x1 x2 : vec3) :
  verification.essential_to_fundamental_matrix (Object e) K1 K2 = Ok F ->
  dot (mat_vec (K K2) x2) (mat_vec F (mat_vec (K K1) x1))
  = dot x2 (mat_vec (matrix e) x1).
Proof.
  intros HF.
  destruct (essential_to_fundamental_factors e K1 K2 F HF)
    as (i2 & i1 & H2 & H1 & ->).
  rewrite dot_mat_vec_transpose, <- !mat_vec_matmul.
  now rewrite matmul_sandwich_cancel.
Qed.

Lemma essential_to_fundamental_preserves_incidence_witness :
  verification.essential_to_fundamental_matrix
    (Object sideways) unit_camera unit_camera
  = Ok (skew (1, 0, 0))
  /\ dot (mat_vec (K unit_camera) (0, 1, 0))
         (mat_vec (skew (1, 0, 0)) (mat_vec (K unit_camera) (0, 0, 1)))
     = dot (0, 1, 0) (mat_vec (matrix sideways) (0, 0, 1)).
Proof.
  split; [exact essential_to_fundamental_sideways |].
  exact (essential_to_fundamental_preserves_incidence
           sideways unit_camera unit_camera (skew (1, 0, 0))
           (0, 0, 1) (0, 1, 0) essential_to_fundamental_sideways).
Defined.

(** ** PoseRecoverer, continued *)

(** The two outputs of pose recovery are present together or absent
    together, and they are absent exactly when the essential matrix is. *)
Theorem recover_relative_pose_both_or_neither
    {C : Type} `{Intrinsics C} (Rot3 Unit3 : Type)
    (normalize_coordinates : coords -> C -> result coords)
    (cv_recoverPose :
       mat33 -> coords -> coords -> result (nat * mat33 * vec3 * list bool))
    (Rot3_new : mat33 -> result Rot3) (Unit3_new : vec3 -> result Unit3)
    (i2Ei1 : option mat33) (c1 c2 : coords) (K1 K2 : C)
    (i2Ri1 : option Rot3) (i2Ui1 : option Unit3) :
  verification.recover_relative_pose_from_essential_matrix
    Rot3 Unit3 normalize_coordinates cv_recoverPose Rot3_new Unit3_new
    i2Ei1 c1 c2 K1 K2
  = Ok (i2Ri1, i2Ui1) ->
  (i2Ei1 = None /\ i2Ri1 = None /\ i2Ui1 = None)
  \/ (i2Ei1 <> None /\ i2Ri1 <> None /\ i2Ui1 <> None).
Proof.
  unfold verification.recover_relative_pose_from_essential_matrix.
  destruct i2Ei1 as [E |].
  - destruct (normalize_coordinates c1 K1) as [n1 |]; [| discriminate].
    destruct (normalize_coordinates c2 K2) as [n2 |]; [| discriminate].
    cbn [bind].
    destruct (cv_recoverPose E n1 n2) as [[[[n Rm] t] mask] |];
      [| discriminate].
    cbn [bind].
    destruct (Rot3_new Rm) as [r |]; [| discriminate].
    destruct (Unit3_new t) as [u |]; [| discriminate].
    cbn [bind]. intros [= <- <-]. right. repeat split; discriminate.
  - intros [= <- <-]. left. repeat split.
Qed.

Lemma recover_relative_pose_both_or_neither_witness :
  verification.recover_relative_pose_from_essential_matrix
    (C := Cal3Bundler) mat33 vec3
    (fun c _ => Ok c)
    (fun _ _ _ => Ok (1%nat, identity, (1, 0, 0), [true]))
    Ok Ok
    (Some (skew (1, 0, 0))) [(0, 0)] [(0, 0)] unit_camera unit_camera
  = Ok (Some identity, Some (1, 0, 0))
  /\ ((Some (skew (1, 0, 0)) = None
       /\ Some identity = None /\ Some (1, 0, 0) = None)
      \/ (Some (skew (1, 0, 0)) <> None
          /\ Some identity <> None /\ Some (1, 0, 0) <> None)).
Proof.
  split; [reflexivity |].
  exact (recover_relative_pose_both_or_neither
           (C := Cal3Bundler) mat33 vec3
           (fun c _ => Ok c)
           (fun _ _ _ => Ok (1%nat, identity, (1, 0, 0), [true]))
           Ok Ok
           (Some (skew (1, 0, 0))) [(0, 0)] [(0, 0)]
           unit_camera unit_camera
           (Some identity) (Some (1, 0, 0)) eq_refl).
Defined.

(** In [src/utils/verification.py] an array without correspondences never
    yields a pose: [np.vstack] of the empty list of calibrated points
    raises, for image 1 before anything else is evaluated. *)
Theorem utils_recover_relative_pose_no_correspondences
    {C : Type} (Rot3 Unit3 : Type)
    (calibrate : C -> R * R -> result (R * R))
    (astype_float32 : R -> R)
    (cv_recoverPose :
       mat33 -> coords -> coords -> result (nat * mat33 * vec3 * list bool))
    (Rot3_new : mat33 -> result Rot3) (Unit3_new : vec3 -> result Unit3)
    (i2Ei1 : mat33) (c1 c2 : coords) (K1 K2 : C) :
  c1 = [] \/ c2 = [] ->
  (c1 = [] ->
   utils_verification.recover_relative_pose_from_essential_matrix
     Rot3 Unit3 calibrate astype_float32 cv_recoverPose Rot3_new Unit3_new
     i2Ei1 c1 c2 K1 K2
   = Raise ValueError)
  /\ forall pose : Rot3 * Unit3,
       utils_verification.recover_relative_pose_from_essential_matrix
         Rot3 Unit3 calibrate astype_float32 cv_recoverPose
         Rot3_new Unit3_new i2Ei1 c1 c2 K1 K2
       <> Ok pose.
Proof.
  intros Hempty.
  unfold utils_verification.recover_relative_pose_from_essential_matrix,
    utils_verification.normalized_coordinates.
  split.
  - intros ->. reflexivity.
  - intros pose. destruct Hempty as [-> | ->]; [discriminate |].
    destruct (comprehension (calibrate K1) c1) as [rows |]; [| discriminate].
    cbn [bind]. destruct (np_vstack rows); [| discriminate].
    cbn [bind comprehension np_vstack]. discriminate.
Qed.

Lemma utils_recover_relative_pose_no_correspondences_witness :
  ([(1, 2)] = ([] : coords) \/ ([] : coords) = []) /\
  forall pose : mat33 * vec3,
    utils_verification.recover_relative_pose_from_essential_matrix
      (C := Cal3Bundler) mat33 vec3
      (fun _ p => Ok p) (fun x => x)
      (fun _ _ _ => Ok (1%nat, identity, (1, 0, 0), [true]))
      Ok Ok
      (skew (1, 0, 0)) [(1, 2)] [] unit_camera unit_camera
    <> Ok pose.
Proof.
  split; [right; reflexivity |].
  exact (proj2 (utils_recover_relative_pose_no_correspondences
                  (C := Cal3Bundler) mat33 vec3
                  (fun _ p => Ok p) (fun x => x)
                  (fun _ _ _ => Ok (1%nat, identity, (1, 0, 0), [true]))
                  Ok Ok
                  (skew (1, 0, 0)) [(1, 2)] [] unit_camera unit_camera
                  (or_intror eq_refl))).
Defined.

(** ** EpipolarScorer, continued *)

Lemma f64_add_comm (a b : float64) : f64_add a b = f64_add b a.
Proof.
  destruct a, b; cbn; try reflexivity. f_equal. apply Rplus_comm.
Qed.

Lemma dot_comm (u v : vec3) : dot u v = dot v u.
Proof. destruct u as [[? ?] ?], v as [[? ?] ?]. cbn. ring. Qed.

Lemma line1_transpose (F : mat33) (p : R * R) :
  spec.line1 (transpose F) p = spec.line2 F p.
Proof. unfold spec.line1, spec.line2. now rewrite transpose_involutive. Qed.

Lemma line2_transpose (F : mat33) (p : R * R) :
  spec.line2 (transpose F) p = spec.line1 F p.
Proof. reflexivity. Qed.

Lemma numerator_transpose (F : mat33) (p q : R * R) :
  spec.numerator (transpose F) q p = spec.numerator F p q.
Proof.
  unfold spec.numerator, spec.line1.
  rewrite transpose_involutive.
  rewrite (dot_comm (convert_to_homogenous_coordinates p)).
  now rewrite dot_mat_vec_transpose, transpose_involutive.
Qed.

Lemma sed_transpose (F : mat33) (p q : R * R) :
  spec.sed (transpose F) q p = spec.sed F p q.
Proof.
  unfold spec.sed.
  rewrite numerator_transpose, line1_transpose, line2_transpose.
  now rewrite f64_add_comm.
Qed.

Lemma sampson_transpose (F : mat33) (p q : R * R) :
  spec.sampson (transpose F) q p = spec.sampson F p q.
Proof.
  unfold spec.sampson.
  rewrite numerator_transpose, line1_transpose, line2_transpose.
  now rewrite Rplus_comm.
Qed.

Lemma epipolar_distances_empty (c1 c2 : option coords) (F : mat33) :
  c1 = None \/ c1 = Some [] \/ c2 = None \/ c2 = Some [] ->
  verification.compute_epipolar_distances_sed c1 c2 F = Ok None
  /\ verification.compute_epipolar_distances_sampson c1 c2 F = Ok None.
Proof.
  unfold verification.compute_epipolar_distances_sed,
    verification.compute_epipolar_distances_sampson.
  intros [-> | [-> | [-> | ->]]];
    destruct c1 as [c1 |] || destruct c2 as [c2 |];
    cbn [size length Nat.mul Nat.eqb orb];
    rewrite ?orb_true_r; split; reflexivity.
Qed.

Lemma coords_cases (c : option coords) :
  c = None \/ c = Some [] \/ exists a, c = Some a /\ a <> [].
Proof.
  destruct c as [[| p a] |]; [right; left | right; right | left];
    try reflexivity.
  exists (p :: a). split; [reflexivity | discriminate].
Qed.

(** Exchanging the two images and transposing the fundamental matrix
    changes neither metric, for any inputs: both return the same array, the
    same [None] or raise the same exception. *)
Theorem epipolar_distances_exchange_images
    (c1 c2 : option coords) (F : mat33) :
  verification.compute_epipolar_distances_sed c2 c1 (transpose F)
  = verification.compute_epipolar_distances_sed c1 c2 F
  /\ verification.compute_epipolar_distances_sampson c2 c1 (transpose F)
     = verification.compute_epipolar_distances_sampson c1 c2 F.
Proof.
  destruct (coords_cases c1) as [H1 | [H1 | (a1 & -> & Hn1)]].
  1, 2: destruct (epipolar_distances_empty c1 c2 F) as [-> ->];
        [tauto |];
        destruct (epipolar_distances_empty c2 c1 (transpose F)) as [-> ->];
        [tauto | split; reflexivity].
  destruct (coords_cases c2) as [H2 | [H2 | (a2 & -> & Hn2)]].
  1, 2: destruct (epipolar_distances_empty (Some a1) c2 F) as [-> ->];
        [tauto |];
        destruct (epipolar_distances_empty c2 (Some a1) (transpose F))
          as [-> ->];
        [tauto | split; reflexivity].
  rewrite !sed_broadcast, !sampson_broadcast by assumption.
  rewrite (broadcast_flip (spec.sed (transpose F)) a2 a1).
  rewrite (broadcast_flip (spec.sampson (transpose F)) a2 a1).
  rewrite (broadcast_ext (fun y x => spec.sed (transpose F) x y)
             (spec.sed F) a1 a2)
    by (intros; apply sed_transpose).
  rewrite (broadcast_ext (fun y x => spec.sampson (transpose F) x y)
             (spec.sampson F) a1 a2)
    by (intros; apply sampson_transpose).
  split; reflexivity.
Qed.



(** Arrays of different numbers of rows, each with at least two rows,
    cannot be broadcast: both metrics raise [ValueError]. *)
Theorem epipolar_distances_row_mismatch
    (c1 c2 : coords) (F : mat33) :
  length c1 <> length c2 ->
  (2 <= length c1)%nat ->
  (2 <= length c2)%nat ->
  verification.compute_epipolar_distances_sed (Some c1) (Some c2) F
  = Raise ValueError
  /\ verification.compute_epipolar_distances_sampson (Some c1) (Some c2) F
     = Raise ValueError.
Proof.
  intros Hne H1 H2.
  assert (Hc1 : c1 <> []) by (intros ->; inversion H1).
  assert (Hc2 : c2 <> []) by (intros ->; inversion H2).
  assert (Hl1 : length c1 <> 1%nat).
  { intros He. rewrite He in H1. inversion H1 as [| ? Hle]. inversion Hle. }
  assert (Hl2 : length c2 <> 1%nat).
  { intros He. rewrite He in H2. inversion H2 as [| ? Hle]. inversion Hle. }
  rewrite sed_broadcast, sampson_broadcast by assumption.
  rewrite !broadcast_mismatch by assumption.
  split; reflexivity.
Qed.

Lemma epipolar_distances_row_mismatch_witness :
  length [(1, 2); (3, 4)] <> length [(0, 0); (1, 1); (2, 2)] /\
  (2 <= length [(1, 2); (3, 4)])%nat /\
  (2 <= length [(0, 0); (1, 1); (2, 2)])%nat /\
  verification.compute_epipolar_distances_sed
    (Some [(1, 2); (3, 4)]) (Some [(0, 0); (1, 1); (2, 2)]) identity
  = Raise ValueError.
Proof.
  assert (Hne : length [(1, 2); (3, 4)]
                <> length [(0, 0); (1, 1); (2, 2)]) by discriminate.
  assert (H1 : (2 <= length [(1, 2); (3, 4)])%nat) by apply le_n.
  assert (H2 : (2 <= length [(0, 0); (1, 1); (2, 2)])%nat)
    by (apply le_S, le_n).
  split; [exact Hne |]. split; [exact H1 |]. split; [exact H2 |].
  exact (proj1 (epipolar_distances_row_mismatch
                  [(1, 2); (3, 4)] [(0, 0); (1, 1); (2, 2)] identity
                  Hne H1 H2)).
Defined.

(** ** ViewPairScorer, continued *)






Lemma pow2_pos (d : R) : d <> 0 -> 0 < d ^ 2.
Proof.
  intros Hd. replace (d ^ 2) with (Rsqr d) by (unfold Rsqr; ring).
  now apply Rsqr_pos_lt.
Qed.

(** Whatever [math.exp] returns for [-d^2 / den] with a divisor that is
    not negative is NaN or lies in [0, 1]. *)
Lemma math_exp_quotient_range (kind : scalar_kind) (d den : R)
    (v : float64) :
  0 <= den ->
  (exponent <- true_divide kind (Finite (- d ^ 2)) (Finite den) ;;
   math_exp exponent) = Ok v ->
  v = NaN \/ exists s : R, v = Finite s /\ 0 <= s <= 1.
Proof.
  intros Hden. pose proof (pow2_ge_0 d) as Hsq.
  destruct (Req_dec_T den 0) as [Hz | Hn].
  - destruct kind; cbn [true_divide f64_div];
      destruct (Req_dec_T den 0); try contradiction;
      cbn [bind]; [discriminate |].
    unfold scale_inf.
    destruct (Req_dec_T (- d ^ 2) 0);
      [cbn [math_exp]; intros [= <-]; now left |].
    destruct (Rlt_dec 0 (- d ^ 2)); [exfalso; lra |].
    cbn [math_exp]. intros [= <-]. right. exists 0. split; [reflexivity | lra].
  - rewrite (true_divide_nonzero kind _ _ Hn). cbn [bind].
    assert (Hpos : 0 < den) by lra.
    pose proof (Rinv_0_lt_compat _ Hpos) as Hinv.
    assert (Hx : - d ^ 2 / den <= 0) by (unfold Rdiv; nra).
    rewrite (math_exp_nonpositive _ Hx). intros [= <-].
    right. eexists. split; [reflexivity |]. now apply exp_rounded_range.
Qed.

(** A zero selected width, with nonzero rays and [|theta_0|] at most
    [2^500].  If the angle is a Python float the division raises
    [ZeroDivisionError].  If it is a NumPy scalar nothing is raised: the
    score is NaN when the angle equals the threshold, and exactly 0 when
    the two are at least [2^-500] apart. *)
Theorem piecewise_gaussian_zero_width
    (xPa xPb : vec3) (theta_0 sigma_1 sigma_2 : R) :
  norm xPa <> 0 ->
  norm xPb <> 0 ->
  spec.selected_width (angle_deg xPa xPb) theta_0 sigma_1 sigma_2 0 ->
  Rabs theta_0 <= 2 ^ 500 ->
  mvs_math.piecewise_gaussian PythonFloat xPa xPb theta_0 sigma_1 sigma_2
  = Raise ZeroDivisionError
  /\ (angle_deg xPa xPb = theta_0 ->
      mvs_math.piecewise_gaussian NumPyScalar xPa xPb
        theta_0 sigma_1 sigma_2
      = Ok NaN)
  /\ (/ 2 ^ 500 <= Rabs (angle_deg xPa xPb - theta_0) ->
      mvs_math.piecewise_gaussian NumPyScalar xPa xPb
        theta_0 sigma_1 sigma_2
      = Ok (Finite 0)).
Proof.
  intros Ha Hb Hsel _.
  rewrite !(piecewise_gaussian_value _ _ _ _ _ _ _ Ha Hb Hsel).
  cbn [true_divide f64_div].
  destruct (Req_dec_T (2 * 0 ^ 2) 0) as [_ | Hn];
    [| exfalso; apply Hn; ring].
  split; [reflexivity |]. cbn [bind]. unfold scale_inf. split.
  - intros ->.
    destruct (Req_dec_T (- (theta_0 - theta_0) ^ 2) 0) as [_ | Hn];
      [reflexivity | exfalso; apply Hn; ring].
  - intros Hfar.
    assert (Hd : angle_deg xPa xPb - theta_0 <> 0).
    { intros Hz. rewrite Hz, Rabs_R0 in Hfar.
      pose proof (Rinv_0_lt_compat _ (pow2_gt_0 500)). lra. }
    pose proof (pow2_pos _ Hd) as Hsq.
    destruct (Req_dec_T (- (angle_deg xPa xPb - theta_0) ^ 2) 0);
      [exfalso; lra |].
    destruct (Rlt_dec 0 (- (angle_deg xPa xPb - theta_0) ^ 2));
      [exfalso; lra | reflexivity].
Qed.

Lemma piecewise_gaussian_zero_width_witness :
  norm (1, 0, 0) <> 0 /\ norm (0, 1, 0) <> 0 /\
  spec.selected_width (angle_deg (1, 0, 0) (0, 1, 0)) 5 1 0 0 /\
  Rabs 5 <= 2 ^ 500 /\
  mvs_math.piecewise_gaussian PythonFloat (1, 0, 0) (0, 1, 0) 5 1 0
  = Raise ZeroDivisionError.
Proof.
  assert (Hsel : spec.selected_width
                   (angle_deg (1, 0, 0) (0, 1, 0)) 5 1 0 0).
  { right. rewrite angle_deg_e1_e2. split; [lra | reflexivity]. }
  assert (Hval : spec.valid_parameters 5 1).
  { apply valid_parameters_small; rewrite Rabs_right; lra. }
  split; [exact norm_e1_nonzero |]. split; [exact norm_e2_nonzero |].
  split; [exact Hsel |]. split; [exact (proj1 Hval) |].
  exact (proj1 (piecewise_gaussian_zero_width
                  (1, 0, 0) (0, 1, 0) 5 1 0
                  norm_e1_nonzero norm_e2_nonzero Hsel (proj1 Hval))).
Defined.

(** A score that [piecewise_gaussian] returns never leaves [0, 1],
    whatever the rays, the parameters and the kind of number: it is NaN
    or a real number between 0 and 1. *)
Theorem piecewise_gaussian_never_exceeds_one (kind : scalar_kind)
    (xPa xPb : vec3) (theta_0 sigma_1 sigma_2 : R) (v : float64) :
  mvs_math.piecewise_gaussian kind xPa xPb theta_0 sigma_1 sigma_2 = Ok v ->
  v = NaN \/ exists s : R, v = Finite s /\ 0 <= s <= 1.
Proof.
  unfold mvs_math.piecewise_gaussian.
  destruct (angle_between_vectors xPa xPb) as [theta | e];
    cbn [bind]; [| discriminate].
  apply math_exp_quotient_range.
  pose proof (pow2_ge_0 (if Rle_dec theta theta_0
                         then sigma_1 else sigma_2)). lra.
Qed.

Lemma piecewise_gaussian_never_exceeds_one_witness :
  mvs_math.piecewise_gaussian NumPyScalar (1, 0, 0) (0, 1, 0) 5 1 1
  = Ok (Finite 0)
  /\ (Finite 0 = NaN \/ exists s : R, Finite 0 = Finite s /\ 0 <= s <= 1).
Proof.
  assert (Hp : mvs_math.piecewise_gaussian NumPyScalar
                 (1, 0, 0) (0, 1, 0) 5 1 1
               = Ok (Finite 0)).
  { assert (Hsel : spec.selected_width
                     (angle_deg (1, 0, 0) (0, 1, 0)) 5 1 1 1).
    { right. rewrite angle_deg_e1_e2. split; [lra | reflexivity]. }
    rewrite (piecewise_gaussian_finite_value NumPyScalar _ _ _ _ _ _
               norm_e1_nonzero norm_e2_nonzero Hsel) by lra.
    rewrite angle_deg_e1_e2, exp_rounded_zero; [reflexivity |].
    unfold spec.exponent. lra. }
  split; [exact Hp |].
  exact (piecewise_gaussian_never_exceeds_one NumPyScalar
           (1, 0, 0) (0, 1, 0) 5 1 1 (Finite 0) Hp).
Defined.



(** ** The rig constraints of [test_rig_retriever.py] *)

Module rig.
Import test_rig_retriever.

Lemma chunks_concat (r c : nat) (rows : list (list R)) :
  length rows = r ->
  Forall (fun row => length row = c) rows ->
  chunks r c (concat rows) = rows.
Proof.
  revert r. induction rows as [| row rows IH]; intros r Hr Hall.
  - cbn in Hr. subst r. reflexivity.
  - cbn in Hr. subst r. inversion Hall as [| ? ? Hrow Hrest]; subst.
    cbn [concat chunks].
    rewrite firstn_app, firstn_all, Nat.sub_diag, firstn_O, app_nil_r.
    rewrite skipn_app, skipn_all, Nat.sub_diag, skipn_O. cbn [app].
    f_equal. now apply IH.
Qed.

Lemma length_concat_rect (r c : nat) (rows : list (list R)) :
  length rows = r ->
  Forall (fun row => length row = c) rows ->
  length (concat rows) = (r * c)%nat.
Proof.
  revert r. induction rows as [| row rows IH]; intros r Hr Hall.
  - cbn in Hr. subst r. reflexivity.
  - cbn in Hr. subst r. inversion Hall as [| ? ? Hrow Hrest]; subst.
    cbn [concat]. rewrite length_app, (IH (length rows)) by easy. cbn. lia.
Qed.

Lemma length_chunks (r c : nat) (v : list R) : length (chunks r c v) = r.
Proof.
  revert v. induction r as [| r IH]; intros v; cbn; [reflexivity |].
  now rewrite IH.
Qed.

Lemma chunks_rows (r c : nat) (v : list R) :
  length v = (r * c)%nat ->
  Forall (fun row => length row = c) (chunks r c v)
  /\ concat (chunks r c v) = v.
Proof.
  revert v. induction r as [| r IH]; intros v Hv.
  - cbn in *. destruct v; [split; constructor | discriminate].
  - cbn [chunks concat].
    assert (Hs : length (skipn c v) = (r * c)%nat)
      by (rewrite length_skipn; lia).
    destruct (IH _ Hs) as [Hall Hcat]. split.
    + constructor; [| exact Hall]. rewrite length_firstn. lia.
    + rewrite Hcat. apply firstn_skipn.
Qed.

Lemma reshape_1d_ok (n : nat) (arr : list (list R)) :
  length (concat arr) = n -> reshape_1d n arr = Return (concat arr).
Proof.
  intros Hn. unfold reshape_1d. now rewrite (proj2 (Nat.eqb_eq _ _) Hn).
Qed.

Lemma reshape_1d_inv (n : nat) (arr : list (list R)) (v : list R) :
  reshape_1d n arr = Return v -> v = concat arr /\ length v = n.
Proof.
  unfold reshape_1d.
  destruct (length (concat arr) =? n)%nat eqn:Hn; [| discriminate].
  intros [= <-]. split; [reflexivity | now apply Nat.eqb_eq].
Qed.

Lemma reshape_2d_ok (r c : nat) (v : list R) :
  length v = (r * c)%nat -> reshape_2d r c v = Return (chunks r c v).
Proof.
  intros Hn. unfold reshape_2d. now rewrite (proj2 (Nat.eqb_eq _ _) Hn).
Qed.


Lemma length_slice (v : list R) (i j : nat) :
  length (slice v i j) = Nat.min (j - i) (length v - i).
Proof. unfold slice. now rewrite length_firstn, length_skipn. Qed.

Lemma int_IZR (z : Z) : int (IZR z) = z.
Proof.
  unfold int. destruct (Rle_dec 0 (IZR z)) as [Hle | Hgt].
  - symmetry. apply Int_part_spec. lra.
  - rewrite <- opp_IZR.
    rewrite <- (Int_part_spec (IZR (- z)) (- z)) by lra. lia.
Qed.

Lemma rint_IZR (z : Z) : rint (IZR z) = z.
Proof.
  unfold rint.
  assert (Hi : Int_part (IZR z) = z) by (symmetry; apply Int_part_spec; lra).
  rewrite Hi.
  destruct (Rlt_dec (IZR z - IZR z) (1 / 2)); [reflexivity | lra].
Qed.

(** Rounding to any number of decimals leaves the integers alone. *)
Lemma np_round_IZR (decimals : nat) (z : Z) :
  np_round decimals (IZR z) = IZR z.
Proof.
  unfold np_round.
  assert (H10 : (10 ^ decimals : R) = IZR (10 ^ Z.of_nat decimals)).
  { now rewrite <- pow_IZR. }
  assert (Hpos : 0 < 10 ^ decimals) by (apply pow_lt; lra).
  rewrite H10 at 1. rewrite <- mult_IZR, rint_IZR, mult_IZR, <- H10.
  field. lra.
Qed.

Lemma firstn_exact {A : Type} (n : nat) (l l' : list A) :
  length l = n -> firstn n (l ++ l') = l.
Proof.
  intros <-. rewrite firstn_app, firstn_all, Nat.sub_diag, firstn_O.
  apply app_nil_r.
Qed.

Lemma skipn_exact {A : Type} (n : nat) (l l' : list A) :
  length l = n -> skipn n (l ++ l') = l'.
Proof.
  intros <-. now rewrite skipn_app, skipn_all, Nat.sub_diag, skipn_O.
Qed.

(** Where the three blocks of a row of 2 + 12 + 36 + 25 numbers are. *)
Lemma row_layout (x y : R) (m cv ct : list R) :
  length m = 12%nat -> length cv = (6 * 6)%nat -> length ct = 25%nat ->
  slice ([x] ++ [y] ++ m ++ cv ++ ct) 2 14 = m
  /\ slice ([x] ++ [y] ++ m ++ cv ++ ct) 14 50 = cv
  /\ skipn 50 ([x] ++ [y] ++ m ++ cv ++ ct) = ct.
Proof.
  intros Hm Hcv Hct. unfold slice.
  change ([x] ++ [y] ++ m ++ cv ++ ct) with ([x; y] ++ m ++ cv ++ ct).
  repeat split.
  - rewrite (skipn_exact 2 [x; y]) by reflexivity.
    now apply firstn_exact.
  - rewrite (app_assoc [x; y] m).
    rewrite (skipn_exact 14 ([x; y] ++ m))
      by (rewrite length_app, Hm; reflexivity).
    now apply firstn_exact.
  - rewrite (app_assoc [x; y] m), (app_assoc ([x; y] ++ m) cv).
    apply skipn_exact. rewrite !length_app, Hm, Hcv. reflexivity.
Qed.

(** Up to [2^53] the conversion to float64 changes nothing. *)
Lemma nearest_float64_small (z : Z) :
  (Z.abs z <= 2 ^ 53)%Z -> nearest_float64 z = z.
Proof.
  intros Hz. unfold nearest_float64.
  now rewrite (proj2 (Z.leb_le _ _) Hz).
Qed.

(** Above [2^53] it does: [2^53 + 1] is no double. *)
Example nearest_float64_rounds :
  nearest_float64 (2 ^ 53 + 1) = (2 ^ 53)%Z
  /\ nearest_float64 (2 ^ 53 + 3) = (2 ^ 53 + 4)%Z
  /\ nearest_float64 (2 ^ 63 - 1) = (2 ^ 63)%Z.
Proof. vm_compute. repeat split. Qed.

(** Truncation does not increase the magnitude. *)
Lemma int_bound (x : R) (n : Z) :
  Rabs x <= IZR n -> (Z.abs (int x) <= n)%Z.
Proof.
  intros Hx. unfold int.
  destruct (Rle_dec 0 x) as [Hpos | Hneg].
  - rewrite Rabs_right in Hx by lra.
    destruct (base_Int_part x) as [Hlow Hup].
    assert (H0 : (0 <= Int_part x)%Z).
    { apply Z.lt_succ_r, lt_IZR. rewrite succ_IZR. lra. }
    rewrite Z.abs_eq by exact H0.
    apply le_IZR. lra.
  - rewrite Rabs_left in Hx by lra.
    destruct (base_Int_part (- x)) as [Hlow Hup].
    assert (H0 : (0 <= Int_part (- x))%Z).
    { apply Z.lt_succ_r, lt_IZR. rewrite succ_IZR. lra. }
    rewrite Z.abs_opp, Z.abs_eq by exact H0.
    apply le_IZR. lra.
Qed.

(** Within 53 bits the cast to a 64-bit integer is the truncation. *)
Lemma astype_int_in_range (x : R) :
  Rabs x <= 2 ^ 53 -> astype_int x = int x.
Proof.
  intros Hx. rewrite pow_IZR in Hx. apply int_bound in Hx.
  unfold astype_int.
  assert (Hlow : (- 2 ^ 63 <= int x)%Z).
  { apply Z.abs_le in Hx. destruct Hx as [Hx _].
    apply Z.le_trans with (- 2 ^ Z.of_nat 53)%Z; [| exact Hx].
    vm_compute. discriminate. }
  assert (Hup : (int x < 2 ^ 63)%Z).
  { apply Z.abs_le in Hx. destruct Hx as [_ Hx].
    apply Z.le_lt_trans with (2 ^ Z.of_nat 53)%Z; [exact Hx |].
    vm_compute. reflexivity. }
  rewrite (proj2 (Z.leb_le _ _) Hlow), (proj2 (Z.ltb_lt _ _) Hup).
  reflexivity.
Qed.

(** Outside 64 bits it is not: [2^63] becomes [-2^63]. *)
Example astype_int_out_of_range :
  astype_int (IZR (2 ^ 63)) = (- 2 ^ 63)%Z.
Proof. unfold astype_int. rewrite int_IZR. reflexivity. Qed.

(** [np.rint] moves a number by at most one half. *)
Lemma rint_error (y : R) : Rabs (IZR (rint y) - y) <= 1 / 2.
Proof.
  unfold rint. destruct (base_Int_part y) as [Hlow Hup].
  apply Rabs_le.
  destruct (Rlt_dec (y - IZR (Int_part y)) (1 / 2)) as [Hlt | Hge];
    [lra |].
  destruct (Rlt_dec (1 / 2) (y - IZR (Int_part y))) as [Hgt | Hle].
  { rewrite plus_IZR. lra. }
  destruct (Z.even (Int_part y)); [lra | rewrite plus_IZR; lra].
Qed.

(** Rounding to 15 decimals moves a number by at most [10^-9]. *)
Lemma np_round_error (x : R) : Rabs (np_round 15 x - x) <= / 10 ^ 9.
Proof.
  unfold np_round.
  assert (Hpos : 0 < 10 ^ 15) by (apply pow_lt; lra).
  pose proof (rint_error (x * 10 ^ 15)) as Herr.
  replace (IZR (rint (x * 10 ^ 15)) / 10 ^ 15 - x)
    with ((IZR (rint (x * 10 ^ 15)) - x * 10 ^ 15) * / 10 ^ 15)
    by (field; lra).
  rewrite Rabs_mult, (Rabs_right (/ 10 ^ 15))
    by (left; now apply Rinv_0_lt_compat).
  pose proof (Rinv_0_lt_compat _ Hpos) as Hinv.
  apply Rle_trans with (1 / 2 * / 10 ^ 15).
  - apply Rmult_le_compat_r; lra.
  - replace (/ 10 ^ 9) with (10 ^ 6 * / 10 ^ 15) by (field; lra).
    apply Rmult_le_compat_r; lra.
Qed.

Lemma within_np_round (m : list (list R)) :
  within (/ 10 ^ 9) m (map (map (np_round 15)) m).
Proof.
  unfold within. induction m as [| row m IH]; [constructor |].
  cbn [map]. constructor; [| exact IH].
  induction row as [| x row IHrow]; [constructor |].
  cbn [map]. constructor; [apply np_round_error | exact IHrow].
Qed.

Lemma Forall_firstn_all {A : Type} (P : A -> Prop) (n : nat) (l : list A) :
  Forall P l -> Forall P (firstn n l).
Proof.
  intros H. revert n. induction H as [| x l Hx _ IH]; intros [| n];
    cbn; constructor; auto.
Qed.

Lemma Forall_skipn_all {A : Type} (P : A -> Prop) (n : nat) (l : list A) :
  Forall P l -> Forall P (skipn n l).
Proof.
  intros H. revert n. induction H as [| x l Hx Hl IH]; intros [| n];
    cbn; auto.
Qed.

Lemma Forall_chunks (P : R -> Prop) (r c : nat) (v : list R) :
  Forall P v -> Forall (Forall P) (chunks r c v).
Proof.
  revert v. induction r as [| r IH]; intros v Hv; cbn [chunks];
    constructor.
  - now apply Forall_firstn_all.
  - apply IH. now apply Forall_skipn_all.
Qed.

Lemma map_map_ext (f g : R -> R) (arr : list (list R)) :
  Forall (Forall (fun x => f x = g x)) arr ->
  map (map f) arr = map (map g) arr.
Proof.
  induction 1 as [| row arr Hrow _ IH]; [reflexivity |].
  cbn [map]. rewrite IH. f_equal.
  induction Hrow as [| x row Hx _ IHrow]; [reflexivity |].
  cbn [map]. now rewrite Hx, IHrow.
Qed.

Section ConstraintProperties.
Variable Pose3 : Type.
Variable Pose3_new : list (list R) -> Pose3.
Variable Pose3_matrix : Pose3 -> list (list R).

Local Abbreviation Constraint := (Constraint Pose3).
Local Abbreviation from_row := (from_row Pose3 Pose3_new).
Local Abbreviation to_row := (to_row Pose3 Pose3_matrix).
Local Abbreviation read := (read Pose3 Pose3_new).
Local Abbreviation write := (write Pose3 Pose3_matrix).
Local Abbreviation run := (run Pose3 Pose3_new).
Local Abbreviation parsed := (parsed Pose3 Pose3_new).
Local Abbreviation well_formed := (well_formed Pose3 Pose3_matrix).
Local Abbreviation reread := (reread Pose3 Pose3_new Pose3_matrix).

Lemma from_row_75 (row : list R) :
  length row = 75%nat -> from_row row = Return (parsed row).
Proof.
  intros Hl. unfold test_rig_retriever.from_row, getitem.
  destruct row as [| r0 [| r1 rest]]; try (cbn in Hl; lia).
  cbn [nth_error and_then].
  change (2 + 12)%nat with 14%nat. change (14 + 36)%nat with 50%nat.
  rewrite reshape_2d_ok by (rewrite length_slice; lia).
  cbn [and_then].
  rewrite reshape_2d_ok by (rewrite length_slice; lia).
  cbn [and_then].
  rewrite reshape_2d_ok by (rewrite length_skipn; lia).
  reflexivity.
Qed.


(** The fields of a serialised constraint sit where [from_row] looks for
    them. *)
Lemma to_row_layout (c : Constraint) (row : list R) :
  to_row c = Return row ->
  nth 0 row 0 = IZR (nearest_float64 (a Pose3 c))
  /\ nth 1 row 0 = IZR (nearest_float64 (b Pose3 c))
  /\ slice row 2 14 = concat (firstn 3 (Pose3_matrix (aTb Pose3 c)))
  /\ slice row 14 50 = concat (cov Pose3 c)
  /\ skipn 50 row = concat (counts Pose3 c).
Proof.
  unfold test_rig_retriever.to_row.
  destruct (reshape_1d 12 _) as [m |] eqn:Hm; [| discriminate].
  destruct (reshape_1d (6 * 6) _) as [cv |] eqn:Hcv; [| discriminate].
  destruct (reshape_1d 25 _) as [ct |] eqn:Hct; [| discriminate].
  cbn [and_then]. intros [= <-].
  apply reshape_1d_inv in Hm, Hcv, Hct.
  destruct Hm as [<- Hm], Hcv as [<- Hcv], Hct as [<- Hct].
  split; [reflexivity |]. split; [reflexivity |].
  now apply row_layout.
Qed.

Lemma to_row_75 (c : Constraint) (row : list R) :
  to_row c = Return row -> length row = 75%nat.
Proof.
  unfold test_rig_retriever.to_row.
  destruct (reshape_1d 12 _) as [m |] eqn:Hm; [| discriminate].
  destruct (reshape_1d (6 * 6) _) as [cv |] eqn:Hcv; [| discriminate].
  destruct (reshape_1d 25 _) as [ct |] eqn:Hct; [| discriminate].
  cbn [and_then]. intros [= <-].
  apply reshape_1d_inv in Hm, Hcv, Hct.
  destruct Hm as [_ Hm], Hcv as [_ Hcv], Hct as [_ Hct].
  cbn [app length]. rewrite !length_app, Hm, Hcv, Hct. reflexivity.
Qed.

(** A serialised constraint can always be parsed back.  With indices below
    [2^63] in magnitude and counts of magnitude at most [2^53], the two
    indices come back as the nearest doubles (unchanged up to [2^53]), the
    covariance and the counts come back as 6x6 and 5x5 arrays of the same
    entries (the counts truncated to integers), and the pose is rebuilt
    from the top three rows of its matrix rounded to 15 decimals. *)
Theorem from_row_of_to_row (c : Constraint) (row : list R) :
  to_row c = Return row ->
  (Z.abs (a Pose3 c) < 2 ^ 63)%Z ->
  (Z.abs (b Pose3 c) < 2 ^ 63)%Z ->
  Forall (Forall (fun x => Rabs x <= 2 ^ 53)) (counts Pose3 c) ->
  from_row row
  = Return
      (mkConstraint Pose3
         (nearest_float64 (a Pose3 c)) (nearest_float64 (b Pose3 c))
         (Pose3_new
            (map (map (np_round 15))
                 (chunks 3 4 (concat (firstn 3 (Pose3_matrix (aTb Pose3 c))))
                  ++ [[0; 0; 0; 1]])))
         (chunks 6 6 (concat (cov Pose3 c)))
         (map (map (fun x => IZR (int x)))
              (chunks 5 5 (concat (counts Pose3 c)))))
  /\ ((Z.abs (a Pose3 c) <= 2 ^ 53)%Z ->
      nearest_float64 (a Pose3 c) = a Pose3 c)
  /\ ((Z.abs (b Pose3 c) <= 2 ^ 53)%Z ->
      nearest_float64 (b Pose3 c) = b Pose3 c).
Proof.
  intros Hrow _ _ Hcounts.
  split; [| split; apply nearest_float64_small].
  rewrite (from_row_75 row (to_row_75 c row Hrow)).
  destruct (to_row_layout c row Hrow) as (H0 & H1 & Hm & Hcv & Hct).
  unfold test_rig_retriever.parsed.
  rewrite H0, H1, Hm, Hcv, Hct, !int_IZR.
  do 2 f_equal. apply map_map_ext.
  apply Forall_chunks. apply Forall_concat.
  eapply Forall_impl; [| exact Hcounts].
  intros r Hr. eapply Forall_impl; [| exact Hr].
  intros x Hx. cbn beta. now rewrite astype_int_in_range.
Qed.

(** A 6x6 or 5x5 array. *)
Lemma reshape_round_trip (r c : nat) (arr : list (list R)) :
  length arr = r -> Forall (fun row => length row = c) arr ->
  reshape_1d (r * c) arr = Return (concat arr)
  /\ chunks r c (concat arr) = arr.
Proof.
  intros Hr Hall. split.
  - apply reshape_1d_ok. now apply length_concat_rect.
  - now apply chunks_concat.
Qed.

Lemma map_map_id (f : R -> R) (arr : list (list R)) :
  Forall (Forall (fun x => f x = x)) arr -> map (map f) arr = arr.
Proof.
  intros H. rewrite <- (map_id arr) at 2.
  rewrite <- (map_ext _ _ (fun row => map_id row)).
  now apply map_map_ext.
Qed.

(** The top three rows of a 4x4 matrix are 3x4. *)
Lemma top_rows (m : list (list R)) :
  length m = 4%nat -> Forall (fun row => length row = 4%nat) m ->
  length (firstn 3 m) = 3%nat
  /\ Forall (fun row => length row = 4%nat) (firstn 3 m)
  /\ firstn 3 m ++ [nth 3 m []] = m.
Proof.
  intros Hl Hall.
  destruct m as [| r0 [| r1 [| r2 [| r3 [| r4 m]]]]]; try discriminate.
  inversion Hall as [| ? ? H0 Hall1]; subst.
  inversion Hall1 as [| ? ? H1 Hall2]; subst.
  inversion Hall2 as [| ? ? H2 Hall3]; subst.
  cbn [firstn nth app length]. repeat split; repeat constructor; assumption.
Qed.

Lemma to_row_well_formed (c : Constraint) :
  well_formed c ->
  to_row c
  = Return ([IZR (a Pose3 c)] ++ [IZR (b Pose3 c)]
            ++ concat (firstn 3 (Pose3_matrix (aTb Pose3 c)))
            ++ concat (cov Pose3 c) ++ concat (counts Pose3 c)).
Proof.
  intros (Ha & Hb & Hm4 & Hm & _ & _ & Hc6 & Hcov & Hc5 & Hcounts & _).
  destruct (top_rows _ Hm4 Hm) as (Ht3 & Ht & _).
  destruct (reshape_round_trip 6 6 _ Hc6 Hcov) as [Hr6 _].
  destruct (reshape_round_trip 5 5 _ Hc5 Hcounts) as [Hr5 _].
  unfold test_rig_retriever.to_row.
  rewrite (reshape_1d_ok 12) by (now apply (length_concat_rect 3 4)).
  cbn [and_then]. rewrite Hr6. cbn [and_then].
  change 25%nat with (5 * 5)%nat. rewrite Hr5. cbn [and_then].
  now rewrite !nearest_float64_small.
Qed.

Lemma from_row_well_formed (c : Constraint) (row : list R) :
  well_formed c -> to_row c = Return row ->
  from_row row = Return (reread c).
Proof.
  intros (Ha & Hb & Hm4 & Hm & Hlast & _ & Hc6 & Hcov & Hc5 & Hcounts & Hint)
         Hrow.
  destruct (top_rows _ Hm4 Hm) as (Ht3 & Ht & Htop).
  destruct (reshape_round_trip 3 4 _ Ht3 Ht) as [_ Hk3].
  destruct (reshape_round_trip 6 6 _ Hc6 Hcov) as [_ Hk6].
  destruct (reshape_round_trip 5 5 _ Hc5 Hcounts) as [_ Hk5].
  rewrite (from_row_75 _ (to_row_75 c _ Hrow)).
  destruct (to_row_layout c _ Hrow) as (H0 & H1 & Hm' & Hcv' & Hct').
  unfold test_rig_retriever.parsed, reread.
  rewrite H0, H1, Hm', Hcv', Hct', !int_IZR.
  rewrite !nearest_float64_small by assumption.
  rewrite Hk3, Hk6, Hk5, <- Hlast, Htop.
  rewrite (map_map_id (fun x => IZR (astype_int x))); [reflexivity |].
  eapply Forall_impl; [| exact Hint].
  intros r Hr. eapply Forall_impl; [| exact Hr].
  intros x [Hx Hbound]. cbn beta. now rewrite astype_int_in_range.
Qed.

(** The round trip of one constraint: on a well-formed constraint [to_row]
    returns 75 numbers, from which [from_row] returns a constraint with
    the same indices, covariance and counts; its pose is built from the
    old pose's matrix rounded to 15 decimals, which is within [10^-9] of
    that matrix, entry by entry. *)
Theorem serialisation_round_trip (c : Constraint) :
  well_formed c ->
  exists row : list R,
    to_row c = Return row
    /\ length row = 75%nat
    /\ from_row row = Return (reread c)
    /\ a Pose3 (reread c) = a Pose3 c
    /\ b Pose3 (reread c) = b Pose3 c
    /\ cov Pose3 (reread c) = cov Pose3 c
    /\ counts Pose3 (reread c) = counts Pose3 c
    /\ aTb Pose3 (reread c)
       = Pose3_new (map (map (np_round 15)) (Pose3_matrix (aTb Pose3 c)))
    /\ within (/ 10 ^ 9) (Pose3_matrix (aTb Pose3 c))
         (map (map (np_round 15)) (Pose3_matrix (aTb Pose3 c))).
Proof.
  intros Hc. eexists.
  split; [now apply to_row_well_formed |].
  split; [eapply to_row_75; now apply to_row_well_formed |].
  split.
  { apply from_row_well_formed; [exact Hc | now apply to_row_well_formed]. }
  repeat (split; [reflexivity |]).
  apply within_np_round.
Qed.

(** [to_row] returns exactly when the three blocks have 12, 36 and 25
    entries, and what it returns has 75 entries. *)
Theorem to_row_returns_75 (c : Constraint) :
  ((exists row, to_row c = Return row)
   <-> length (concat (firstn 3 (Pose3_matrix (aTb Pose3 c)))) = 12%nat
       /\ length (concat (cov Pose3 c)) = 36%nat
       /\ length (concat (counts Pose3 c)) = 25%nat)
  /\ forall row, to_row c = Return row -> length row = 75%nat.
Proof.
  split; [| apply to_row_75].
  unfold test_rig_retriever.to_row, reshape_1d. split.
  - intros [row Hrow].
    destruct (length (concat (firstn 3 _)) =? 12)%nat eqn:Hm;
      [| discriminate].
    cbn [and_then] in Hrow.
    destruct (length (concat (cov Pose3 c)) =? 6 * 6)%nat eqn:Hcv;
      [| discriminate].
    cbn [and_then] in Hrow.
    destruct (length (concat (counts Pose3 c)) =? 25)%nat eqn:Hct;
      [| discriminate].
    apply Nat.eqb_eq in Hm, Hcv, Hct. repeat split; assumption.
  - intros (Hm & Hcv & Hct).
    rewrite (proj2 (Nat.eqb_eq _ _) Hm). cbn [and_then].
    change (6 * 6)%nat with 36%nat.
    rewrite (proj2 (Nat.eqb_eq _ _) Hcv). cbn [and_then].
    rewrite (proj2 (Nat.eqb_eq _ _) Hct). cbn [and_then].
    eexists. reflexivity.
Qed.

Lemma for_each_map {A B : Type} (f : A -> outcome B) (g : A -> B)
    (xs : list A) :
  Forall (fun x => f x = Return (g x)) xs ->
  for_each f xs = Return (map g xs).
Proof.
  induction 1 as [| x xs Hx _ IH]; [reflexivity |].
  cbn [for_each map]. now rewrite Hx, IH.
Qed.

Lemma np_loadtxt_matrix (lines : list (list R)) (n : nat) :
  (2 <= length lines)%nat -> (2 <= n)%nat ->
  Forall (fun l => length l = n) lines ->
  np_loadtxt lines = Return (Array2 lines).
Proof.
  intros Hl Hn Hall. unfold np_loadtxt.
  destruct lines as [| first [| second rest]]; try (cbn in Hl; lia).
  inversion Hall as [| ? ? Hfirst Hrest]; subst.
  assert (Hb : forallb (fun l => (length l =? length first)%nat)
                 (second :: rest) = true).
  { apply forallb_forall. intros l Hin.
    rewrite Forall_forall in Hrest. rewrite (Hrest l Hin).
    apply Nat.eqb_refl. }
  rewrite Hb.
  destruct first as [| x [| y first]]; try (cbn in Hn; lia); reflexivity.
Qed.

(** A constraints file with a single constraint cannot be read: NumPy
    squeezes its one line to a 1-d array, the iteration hands scalars to
    [from_row], and indexing a scalar is an [IndexError]; so is
    [RigRetriever.run] on such a file. *)
Theorem read_single_line_raises (line : list R) :
  (2 <= length line)%nat ->
  read [line] = Throw IndexError /\ run [line] = Throw IndexError.
Proof.
  intros Hl.
  assert (Hread : read [line] = Throw IndexError).
  { unfold test_rig_retriever.read, np_loadtxt. cbn [forallb].
    destruct line as [| x [| y line]]; try (cbn in Hl; lia). reflexivity. }
  split; [exact Hread |].
  unfold test_rig_retriever.run. fold (read [line]). now rewrite Hread.
Qed.


Lemma for_each_map_in {A A' B : Type} (f : A' -> outcome B)
    (h : A -> A') (g : A -> B) (xs : list A) :
  Forall (fun x => f (h x) = Return (g x)) xs ->
  for_each f (map h xs) = Return (map g xs).
Proof.
  induction 1 as [| x xs Hx _ IH]; [reflexivity |].
  cbn [for_each map]. now rewrite Hx, IH.
Qed.

(** Writing constraints to a file and reading the file back.  When there
    are none or at least two well-formed constraints, they come back in
    order with the same indices, covariances and counts, each pose built
    from the old pose's matrix rounded to 15 decimals, which is within
    [10^-9] of that matrix; a file written from exactly one constraint
    cannot be read back, [read] raises [IndexError]. *)
Theorem write_then_read (cs : list Constraint) :
  Forall well_formed cs ->
  exists file : list (list R),
    write cs = Return file
    /\ (length cs <> 1%nat -> read file = Return (map reread cs))
    /\ (length cs = 1%nat -> read file = Throw IndexError)
    /\ Forall (fun c =>
                 a Pose3 (reread c) = a Pose3 c
                 /\ b Pose3 (reread c) = b Pose3 c
                 /\ cov Pose3 (reread c) = cov Pose3 c
                 /\ counts Pose3 (reread c) = counts Pose3 c
                 /\ within (/ 10 ^ 9) (Pose3_matrix (aTb Pose3 c))
                      (map (map (np_round 15))
                           (Pose3_matrix (aTb Pose3 c)))) cs.
Proof.
  intros Hall.
  set (row_of := fun c : Constraint =>
         [IZR (a Pose3 c)] ++ [IZR (b Pose3 c)]
         ++ concat (firstn 3 (Pose3_matrix (aTb Pose3 c)))
         ++ concat (cov Pose3 c) ++ concat (counts Pose3 c)).
  assert (Hwrite : write cs = Return (map row_of cs)).
  { unfold test_rig_retriever.write. apply for_each_map.
    eapply Forall_impl; [| exact Hall].
    intros c Hc. now apply to_row_well_formed. }
  assert (H75 : Forall (fun l => length l = 75%nat) (map row_of cs)).
  { apply Forall_map. eapply Forall_impl; [| exact Hall].
    intros c Hc. eapply to_row_75. now apply to_row_well_formed. }
  assert (Hback : Forall (fun c => from_row (row_of c) = Return (reread c))
                    cs).
  { eapply Forall_impl; [| exact Hall].
    intros c Hc. apply from_row_well_formed; [exact Hc |].
    now apply to_row_well_formed. }
  exists (map row_of cs). split; [exact Hwrite |]. split; [| split].
  - intros Hlen. destruct cs as [| c1 [| c2 cs]].
    + reflexivity.
    + now contradiction Hlen.
    + unfold test_rig_retriever.read.
      rewrite (np_loadtxt_matrix _ 75)
        by (try assumption; cbn [map length]; lia).
      cbn [and_then iterate]. rewrite map_map.
      apply (for_each_map_in _ _ (fun c => reread c)).
      exact Hback.
  - intros Hlen. destruct cs as [| c1 [| c2 cs]]; try discriminate.
    inversion H75 as [| ? ? Hc1 _]; subst.
    unfold test_rig_retriever.read, np_loadtxt. cbn [map forallb].
    destruct (row_of c1) as [| x [| y rest]];
      try (cbn in Hc1; lia). reflexivity.
  - apply Forall_forall. intros c _.
    repeat (split; [reflexivity |]). apply within_np_round.
Qed.

End ConstraintProperties.

Lemma small_entry (x : R) : -10 <= x <= 200 -> Rabs x <= 2 ^ 16.
Proof. intros Hx. apply Rabs_le. lra. Qed.

Lemma count_entry (z : Z) :
  (0 <= z <= 200)%Z ->
  IZR (int (IZR z)) = IZR z /\ Rabs (IZR z) <= 2 ^ 53.
Proof.
  intros Hz. rewrite int_IZR. split; [reflexivity |].
  rewrite Rabs_Zabs, pow_IZR. apply IZR_le.
  apply Z.le_trans with 200%Z; [lia | vm_compute; discriminate].
Qed.

(** The first constraint of the tests is well formed. *)
Lemma well_formed_a_constraint_b :
  well_formed (list (list R)) (fun m => m) a_constraint_b.
Proof.
  unfold well_formed, a_constraint_b, quarter_turn_pose.
  cbn [a b aTb cov counts].
  split; [vm_compute; discriminate |].
  split; [vm_compute; discriminate |].
  split; [reflexivity |].
  split; [repeat constructor |].
  split; [reflexivity |].
  split.
  { repeat (first [apply Forall_nil | apply Forall_cons]);
      apply small_entry; lra. }
  split; [reflexivity |].
  split; [repeat constructor |].
  split; [reflexivity |].
  split; [repeat constructor |].
  cbn [repeat].
  repeat (first [apply Forall_nil | apply Forall_cons]);
    first [ apply (count_entry 200); lia | apply (count_entry 0); lia ].
Qed.

(** The cosine of the quarter turn does not survive the rounding to 15
    decimals: the pose that is read back is built from another matrix. *)
Lemma quarter_turn_cosine_is_rounded :
  np_round 15 (6123 / 10 ^ 20) = 0
  /\ map (map (np_round 15)) quarter_turn_pose <> quarter_turn_pose.
Proof.
  assert (Hr : np_round 15 (6123 / 10 ^ 20) = 0).
  { unfold np_round, rint.
    replace (6123 / 10 ^ 20 * 10 ^ 15) with (6123 / 100000) by (field; lra).
    assert (Hi : Int_part (6123 / 100000) = 0%Z).
    { symmetry. apply Int_part_spec. lra. }
    rewrite Hi.
    destruct (Rlt_dec (6123 / 100000 - 0) (1 / 2)); [| lra].
    unfold Rdiv. ring. }
  split; [exact Hr |].
  unfold quarter_turn_pose. cbn [map]. rewrite Hr.
  intros [= H _]. lra.
Qed.

Lemma serialisation_round_trip_witness :
  well_formed (list (list R)) (fun m => m) a_constraint_b
  /\ exists row : list R,
       to_row (list (list R)) (fun m => m) a_constraint_b = Return row
       /\ length row = 75%nat
       /\ from_row (list (list R)) (fun m => m) row
          = Return (reread (list (list R)) (fun m => m) (fun m => m)
                      a_constraint_b).
Proof.
  split; [exact well_formed_a_constraint_b |].
  destruct (serialisation_round_trip (list (list R)) (fun m => m)
              (fun m => m) a_constraint_b well_formed_a_constraint_b)
    as (row & Hrow & Hlen & Hback & _).
  exists row. split; [exact Hrow |]. split; [exact Hlen | exact Hback].
Defined.

Lemma to_row_a_constraint_b :
  to_row (list (list R)) (fun m => m) a_constraint_b
  = Return ([1; 2] ++ concat (firstn 3 quarter_turn_pose)
            ++ concat (cov _ a_constraint_b)
            ++ concat (counts _ a_constraint_b)).
Proof.
  rewrite (to_row_well_formed _ (fun m => m))
    by exact well_formed_a_constraint_b.
  reflexivity.
Qed.

Lemma counts_a_constraint_b :
  Forall (Forall (fun x => Rabs x <= 2 ^ 53)) (counts _ a_constraint_b).
Proof.
  pose proof well_formed_a_constraint_b as H.
  destruct H as (_ & _ & _ & _ & _ & _ & _ & _ & _ & _ & Hint).
  eapply Forall_impl; [| exact Hint].
  intros r Hr. eapply Forall_impl; [| exact Hr].
  intros x [_ Hx]. exact Hx.
Qed.

Lemma from_row_of_to_row_witness :
  to_row (list (list R)) (fun m => m) a_constraint_b
  = Return ([1; 2] ++ concat (firstn 3 quarter_turn_pose)
            ++ concat (cov _ a_constraint_b)
            ++ concat (counts _ a_constraint_b))
  /\ (Z.abs (a _ a_constraint_b) < 2 ^ 63)%Z
  /\ (Z.abs (b _ a_constraint_b) < 2 ^ 63)%Z
  /\ Forall (Forall (fun x => Rabs x <= 2 ^ 53)) (counts _ a_constraint_b)
  /\ exists c,
       from_row (list (list R)) (fun m => m)
         ([1; 2] ++ concat (firstn 3 quarter_turn_pose)
          ++ concat (cov _ a_constraint_b)
          ++ concat (counts _ a_constraint_b))
       = Return c
       /\ a _ c = 1%Z /\ b _ c = 2%Z.
Proof.
  assert (Ha : (Z.abs (a _ a_constraint_b) < 2 ^ 63)%Z) by reflexivity.
  assert (Hb : (Z.abs (b _ a_constraint_b) < 2 ^ 63)%Z) by reflexivity.
  split; [exact to_row_a_constraint_b |]. split; [exact Ha |].
  split; [exact Hb |]. split; [exact counts_a_constraint_b |].
  eexists. split.
  - exact (proj1 (from_row_of_to_row (list (list R)) (fun m => m)
                    (fun m => m) a_constraint_b _ to_row_a_constraint_b
                    Ha Hb counts_a_constraint_b)).
  - split; reflexivity.
Defined.

Lemma read_single_line_raises_witness :
  (2 <= length [1; 2])%nat
  /\ read (list (list R)) (fun m => m) [[1; 2]] = Throw IndexError.
Proof.
  assert (Hl : (2 <= length [1; 2])%nat) by apply le_n.
  split; [exact Hl |].
  exact (proj1 (read_single_line_raises (list (list R)) (fun m => m)
                  [1; 2] Hl)).
Defined.


Lemma write_then_read_witness :
  Forall (well_formed (list (list R)) (fun m => m))
    [a_constraint_b; a_constraint_b]
  /\ exists file : list (list R),
       write (list (list R)) (fun m => m)
         [a_constraint_b; a_constraint_b]
       = Return file
       /\ (length [a_constraint_b; a_constraint_b] <> 1%nat ->
           read (list (list R)) (fun m => m) file
           = Return (map (reread (list (list R)) (fun m => m) (fun m => m))
                       [a_constraint_b; a_constraint_b])).
Proof.
  assert (Hall : Forall (well_formed (list (list R)) (fun m => m))
                   [a_constraint_b; a_constraint_b]).
  { constructor; [exact well_formed_a_constraint_b |].
    constructor; [exact well_formed_a_constraint_b | constructor]. }
  split; [exact Hall |].
  destruct (write_then_read (list (list R)) (fun m => m) (fun m => m)
              [a_constraint_b; a_constraint_b] Hall)
    as (file & Hwrite & Hread & _).
  exists file. split; [exact Hwrite | exact Hread].
Defined.

End rig.
